(** * Automation tool front end: a shallow embedding and its properties

    The repository is a React/TypeScript front end for a content pipeline
    (script generation, video creation, upload).  Each component is a
    function component whose state lives in [useState] cells and whose
    behaviour lives in event handlers, some of them [async].

    The embedding follows that shape:
    - a component's [useState] cells are the fields of a record;
    - a synchronous handler is a function on that record;
    - an [async] handler is cut at its [await]s: the part before the first
      [await] runs when the handler is called, and every later part runs
      when the timer it waits for fires.  A suspended handler is a record
      holding what its closure captured and its loop counter;
    - what a handler tells the outside world ([onLog], [toast], the setter
      calls an observer of the UI sees) is appended to a trace;
    - JavaScript numbers are IEEE 754 binary64 values ([float]);
    - JavaScript strings are [string]s whose characters are the code units
      0..255.

    Part I holds the definitions, Part II the properties. *)

From Stdlib Require Import ZArith Floats Ascii String.
From stdpp Require Import base tactics option list sets sorting strings pretty.

Open Scope string_scope.
Open Scope list_scope.
Open Scope nat_scope.

(* ===================================================================== *)
(** * Part I: definitions                                                 *)
(* ===================================================================== *)

(** ** The JavaScript primitives the handlers use *)

Module JS.

(** [WhiteSpace] and [LineTerminator] code units below 256: TAB, LF, VT,
    FF, CR, SP and NBSP.  These are what [String.prototype.trim] strips. *)
Definition isWhiteSpace (c : ascii) : bool :=
  match nat_of_ascii c with
  | 9 | 10 | 11 | 12 | 13 | 32 | 160 => true
  | _ => false
  end.

Fixpoint trimStart (s : string) : string :=
  match s with
  | String c s' => if isWhiteSpace c then trimStart s' else s
  | EmptyString => EmptyString
  end.

Definition trimEnd (s : string) : string :=
  String.rev (trimStart (String.rev s)).

(** [s.trim()] *)
Definition trim (s : string) : string := trimEnd (trimStart s).

(** Truthiness of a string in a condition: non-empty. *)
Definition truthy (s : string) : bool :=
  match s with EmptyString => false | String _ _ => true end.

(** [s.includes(sub)]: [sub] occurs in [s] as a contiguous substring. *)
Fixpoint includes (s sub : string) : bool :=
  if String.prefix sub s then true
  else match s with
       | EmptyString => false
       | String _ s' => includes s' sub
       end.

(** [s.startsWith(p) ? s.slice(p.length) : undefined]: what follows the
    prefix [p] in [s]. *)
Fixpoint afterPrefix (p s : string) : option string :=
  match p, s with
  | EmptyString, _ => Some s
  | String a p', String b s' =>
      if Ascii.eqb a b then afterPrefix p' s' else None
  | String _ _, EmptyString => None
  end.

(** [arr.includes(x)] on an array of strings. *)
Definition arrayIncludes (arr : list string) (x : string) : bool :=
  bool_decide (x ∈ arr).

(** A non-negative integer as a JavaScript number.  Exact below 2^53,
    which covers every array length and loop counter. *)
Definition num (n : nat) : float :=
  PrimFloat.of_uint63 (Uint63.of_Z (Z.of_nat n)).

(** Whether the finite number [x] is within 2^-46 of the rational
    [p / q].  A finite [x] is [±m * 2^e] exactly, so the comparison is one of
    integers.  Used to say how far a computed percentage is from the exact
    one. *)
Definition within46 (x : float) (p q : nat) : bool :=
  match Prim2SF x with
  | S754_zero _ => (Z.of_nat p * 2 ^ 46 <=? Z.of_nat q)%Z
  | S754_finite s m e =>
      let sm := (if s then Z.neg m else Z.pos m) in
      (* |sm * 2^e - p / q| <= 2^-46, cleared of denominators *)
      if (0 <=? e)%Z then
        (Z.abs (Z.of_nat q * sm * 2 ^ e - Z.of_nat p) * 2 ^ 46
           <=? Z.of_nat q)%Z
      else
        (Z.abs (Z.of_nat q * sm - Z.of_nat p * 2 ^ (- e)) * 2 ^ 46
           <=? Z.of_nat q * 2 ^ (- e))%Z
  | _ => false
  end.

(** [Math.round(x)]: the integer closest to [x], ties towards +infinity;
    NaN, the infinities and the zeros are returned as they are.  A finite
    [x] is [±m * 2^e] exactly, so the result [floor (x + 1/2)] is computed
    on integers, with no rounding in between.  A result of zero keeps the
    sign of [x], as in ECMAScript. *)
Definition Math_round (x : float) : float :=
  match Prim2SF x with
  | S754_finite s m e =>
      if (0 <=? e)%Z then x
      else
        let sm := (if s then Z.neg m else Z.pos m) in
        let r := ((2 * sm + 2 ^ (- e)) / 2 ^ (- e + 1))%Z in
        let a := PrimFloat.of_uint63 (Uint63.of_Z (Z.abs r)) in
        if (r <? 0)%Z then PrimFloat.opp a
        else if s then PrimFloat.opp a else a
  | _ => x
  end.

End JS.

(** ** ScriptGenerator: the keyword list *)

Module ScriptGenerator.

(** The two state cells the keyword handlers read and write:
    [useState<string[]>([])] and [useState('')]. *)
Record State := mkState {
  keywords : list string;
  newKeyword : string;
}.

Definition initial : State := {| keywords := []; newKeyword := "" |}.

Definition handleAddKeyword (st : State) : State :=
  let k := JS.trim (newKeyword st) in
  if JS.truthy k && negb (JS.arrayIncludes (keywords st) k)
  then {| keywords := keywords st ++ [k]; newKeyword := "" |}
  else st.

Definition handleRemoveKeyword (keyword : string) (st : State) : State :=
  {| keywords := filter (λ k, k ≠ keyword) (keywords st);
     newKeyword := newKeyword st |}.

(** What the user can do to the keyword widget: type into the input
    ([onChange] calls [setNewKeyword]), press Add or Enter, click a badge. *)
Inductive Event :=
| TypeKeyword (text : string)
| AddKeyword
| RemoveKeyword (keyword : string).

Definition step (st : State) (ev : Event) : State :=
  match ev with
  | TypeKeyword text => {| keywords := keywords st; newKeyword := text |}
  | AddKeyword => handleAddKeyword st
  | RemoveKeyword keyword => handleRemoveKeyword keyword st
  end.

Definition run (evs : list Event) : State := foldl step initial evs.

(** The same run with every keyword tagged by the position, in the event
    sequence, of the event that inserted it.  The tags are ghost data:
    erasing them gives [run] back ([stamped_erase] in Part II). *)
Record Stamped := mkStamped {
  entries : list (string * nat);
  pending : string;
  clock : nat;
}.

Definition stamped_step (st : Stamped) (ev : Event) : Stamped :=
  match ev with
  | TypeKeyword text =>
      {| entries := entries st; pending := text; clock := S (clock st) |}
  | AddKeyword =>
      let k := JS.trim (pending st) in
      if JS.truthy k && negb (JS.arrayIncludes (entries st).*1 k)
      then {| entries := entries st ++ [(k, clock st)]; pending := "";
              clock := S (clock st) |}
      else {| entries := entries st; pending := pending st;
              clock := S (clock st) |}
  | RemoveKeyword keyword =>
      {| entries := filter (λ e, e.1 ≠ keyword) (entries st);
         pending := pending st; clock := S (clock st) |}
  end.

Definition stamped_run (evs : list Event) : Stamped :=
  foldl stamped_step {| entries := []; pending := ""; clock := 0 |} evs.

End ScriptGenerator.

(** ** React's state setters *)

Module React.

(** [SetStateAction<S> = S | ((prevState: S) => S)] *)
Inductive SetStateAction (S : Type) :=
| Value (v : S)
| Updater (f : S → S).
Arguments Value {S} v.
Arguments Updater {S} f.

Definition resolve {S : Type} (a : SetStateAction S) (prev : S) : S :=
  match a with
  | Value v => v
  | Updater f => f prev
  end.

End React.

(** ** AutomationDashboard: the run controls and the simulated workflow *)

Module AutomationDashboard.
Import React.

(** The five [useState] cells of the component. *)
Record State := mkState {
  isRunning : bool;
  progress : float;
  currentStep : string;
  videosCreated : float;
  videosUploaded : float;
}.

Definition initial : State :=
  {| isRunning := false; progress := 0; currentStep := "";
     videosCreated := 0; videosUploaded := 0 |}.

(** [workflowModes]: the options of the mode selector, as (value, label). *)
Definition workflowModes : list (string * string) :=
  [ ("full_auto", "Full Auto (Script → Video → Upload)");
    ("script_only", "Script Only");
    ("video_only", "Video Only");
    ("upload_only", "Upload Only");
    ("script_and_video", "Script + Video");
    ("video_and_upload", "Video + Upload") ].

(** The [switch] of [getWorkflowSteps], one strict comparison per [case]. *)
Definition getWorkflowSteps (workflow : string) : list string :=
  if String.eqb workflow "full_auto" then
    ["Generate Script"; "Create Video"; "Upload to YouTube"]
  else if String.eqb workflow "script_only" then
    ["Generate Script"]
  else if String.eqb workflow "video_only" then
    ["Create Video"]
  else if String.eqb workflow "upload_only" then
    ["Upload to YouTube"]
  else if String.eqb workflow "script_and_video" then
    ["Generate Script"; "Create Video"]
  else if String.eqb workflow "video_and_upload" then
    ["Create Video"; "Upload to YouTube"]
  else [].

(** Every call a handler makes: the five setters, the [onLog] prop and
    the three kinds of toast.  The constructors carry the arguments. *)
Inductive Effect :=
| setIsRunning (b : bool)
| setProgress (v : float)
| setCurrentStep (s : string)
| setVideosCreated (a : SetStateAction float)
| setVideosUploaded (a : SetStateAction float)
| onLog (message : string)
| toast_success (message : string)
| toast_info (message : string)
| toast_error (message : string).

(** What a call does to the state cells.  [onLog] and [toast] leave them
    alone. *)
Definition apply (st : State) (e : Effect) : State :=
  match e with
  | setIsRunning b =>
      {| isRunning := b; progress := progress st;
         currentStep := currentStep st; videosCreated := videosCreated st;
         videosUploaded := videosUploaded st |}
  | setProgress v =>
      {| isRunning := isRunning st; progress := v;
         currentStep := currentStep st; videosCreated := videosCreated st;
         videosUploaded := videosUploaded st |}
  | setCurrentStep s =>
      {| isRunning := isRunning st; progress := progress st;
         currentStep := s; videosCreated := videosCreated st;
         videosUploaded := videosUploaded st |}
  | setVideosCreated a =>
      {| isRunning := isRunning st; progress := progress st;
         currentStep := currentStep st;
         videosCreated := resolve a (videosCreated st);
         videosUploaded := videosUploaded st |}
  | setVideosUploaded a =>
      {| isRunning := isRunning st; progress := progress st;
         currentStep := currentStep st; videosCreated := videosCreated st;
         videosUploaded := resolve a (videosUploaded st) |}
  | onLog _ | toast_success _ | toast_info _ | toast_error _ => st
  end.

(** A [handleStart] call suspended at its [await]: the [activeWorkflow]
    its closure captured, its local [steps] and its loop counter [i]. *)
Record Task := mkTask {
  task_workflow : string;
  steps : list string;
  i : nat;
}.

(** A segment of an [async] handler: the calls it makes, and the task it
    leaves waiting for a timer, if it does not run to its end. *)
Definition Segment : Type := list Effect * option Task.

(** [((i + 1) / steps.length) * 100] *)
Definition stepProgress (i length : nat) : float :=
  PrimFloat.mul (PrimFloat.div (JS.num (i + 1)) (JS.num length)) 100.

(** The loop of [handleStart] from its test [i < steps.length] to the
    [await] of iteration [i]; when the test fails, the three statements
    after the loop. *)
Definition loop_from (workflow : string) (steps : list string) (i : nat)
  : Segment :=
  match steps !! i with
  | Some step =>
      ([ setCurrentStep step; onLog ("Executing step: " +:+ step) ],
       Some {| task_workflow := workflow; steps := steps; i := i |})
  | None =>
      ([ setIsRunning false; setCurrentStep "Completed";
         toast_success (workflow +:+ " workflow completed successfully!") ],
       None)
  end.

(** [handleStart] up to its first [await]. *)
Definition handleStart (activeWorkflow : string) : Segment :=
  let steps := getWorkflowSteps activeWorkflow in
  let '(effects, task) := loop_from activeWorkflow steps 0 in
  ([ setIsRunning true; setProgress 0;
     onLog ("Starting " +:+ activeWorkflow +:+ " workflow") ] ++ effects,
   task).

(** The [if / else if] chain on [steps[i]] after the simulated work. *)
Definition stepCompleted (step : string) : list Effect :=
  if JS.includes step "Script" then
    [ onLog "Script generation completed" ]
  else if JS.includes step "Video" then
    [ setVideosCreated (Updater (λ prev, PrimFloat.add prev 1));
      onLog "Video creation completed" ]
  else if JS.includes step "Upload" then
    [ setVideosUploaded (Updater (λ prev, PrimFloat.add prev 1));
      onLog "Video upload completed" ]
  else [].

(** [handleStart] from the moment its timer fires to the next [await] or
    to its end.  A task is only ever suspended with [i < steps.length]
    ([loop_from]), so the [None] branch is never taken; there [steps[i]] is
    [undefined] and the call of [includes] on it throws, after
    [setProgress]. *)
Definition resume (t : Task) : Segment :=
  match steps t !! i t with
  | Some step =>
      let '(effects, task) :=
        loop_from (task_workflow t) (steps t) (i t + 1) in
      ([ setProgress (stepProgress (i t) (length (steps t))) ]
         ++ stepCompleted step ++ effects,
       task)
  | None => ([ setProgress (stepProgress (i t) (length (steps t))) ], None)
  end.

Definition handlePause : list Effect :=
  [ setIsRunning false; onLog "Workflow paused";
    toast_info "Workflow paused" ].

Definition handleStop : list Effect :=
  [ setIsRunning false; setProgress 0; setCurrentStep "";
    onLog "Workflow stopped"; toast_error "Workflow stopped" ].

Definition handleReset : list Effect :=
  [ setProgress 0; setCurrentStep ""; setVideosCreated (Value 0%float);
    setVideosUploaded (Value 0%float); onLog "Dashboard reset" ].

(** The success rate shown in the statistics card:
    [videosCreated > 0 ? Math.round((videosUploaded / videosCreated) * 100) : 0] *)
Definition successRate (videosCreated videosUploaded : float) : float :=
  if PrimFloat.ltb 0 videosCreated
  then JS.Math_round
         (PrimFloat.mul (PrimFloat.div videosUploaded videosCreated) 100)
  else 0%float.

(** The same expression as syntax, with an evaluator that follows
    JavaScript's order of evaluation: operands left to right, and of a
    conditional the test and then only the branch the test selects.  With
    the value the evaluator returns every division it performed, as
    (dividend, divisor). *)
Inductive Expr :=
| Num (v : float)
| VideosCreated
| VideosUploaded
| Div (a b : Expr)
| Mul (a b : Expr)
| MathRound (a : Expr)
| IfGreater (a b : Expr) (yes no : Expr).

Fixpoint eval (videosCreated videosUploaded : float) (e : Expr)
  : float * list (float * float) :=
  match e with
  | Num v => (v, [])
  | VideosCreated => (videosCreated, [])
  | VideosUploaded => (videosUploaded, [])
  | Div a b =>
      let '(x, da) := eval videosCreated videosUploaded a in
      let '(y, db) := eval videosCreated videosUploaded b in
      (PrimFloat.div x y, da ++ db ++ [ (x, y) ])
  | Mul a b =>
      let '(x, da) := eval videosCreated videosUploaded a in
      let '(y, db) := eval videosCreated videosUploaded b in
      (PrimFloat.mul x y, da ++ db)
  | MathRound a =>
      let '(x, da) := eval videosCreated videosUploaded a in
      (JS.Math_round x, da)
  | IfGreater a b yes no =>
      let '(x, da) := eval videosCreated videosUploaded a in
      let '(y, db) := eval videosCreated videosUploaded b in
      let '(v, d) :=
        eval videosCreated videosUploaded
             (if PrimFloat.ltb y x then yes else no) in
      (v, da ++ db ++ d)
  end.

(** [videosCreated > 0 ? Math.round((videosUploaded / videosCreated) * 100) : 0] *)
Definition successRateExpr : Expr :=
  IfGreater VideosCreated (Num 0)
    (MathRound (Mul (Div VideosUploaded VideosCreated) (Num 100)))
    (Num 0).

(** *** The component in its page

    The page owns [activeWorkflow] and passes it down; the browser owns
    the timers.  All timers of [handleStart] have the same delay, so they
    fire in the order they were set: [timers] is a queue. *)
Record System := mkSystem {
  ui : State;
  activeWorkflow : string;
  timers : list Task;
  trace : list Effect;
}.

(** [useState<string>('full_auto')] in the page. *)
Definition boot : System :=
  {| ui := initial; activeWorkflow := "full_auto"; timers := [];
     trace := [] |}.

(** Run a segment: apply its calls in order, log them, queue its task. *)
Definition perform (sys : System) (timers : list Task) (seg : Segment)
  : System :=
  {| ui := foldl apply (ui sys) seg.1;
     activeWorkflow := activeWorkflow sys;
     timers := timers ++ option_list seg.2;
     trace := trace sys ++ seg.1 |}.

(** What can happen to the component: a click on one of its four buttons,
    a choice in the mode selector, or the oldest timer firing. *)
Inductive Event :=
| ClickStart
| ClickPause
| ClickStop
| ClickReset
| SelectWorkflow (workflow : string)
| TimerFires.

(** A click reaches its handler only when the button is enabled: Start has
    [disabled={isRunning}], Pause and Stop have [disabled={!isRunning}]. *)
Definition step (sys : System) (ev : Event) : System :=
  match ev with
  | ClickStart =>
      if isRunning (ui sys) then sys
      else perform sys (timers sys) (handleStart (activeWorkflow sys))
  | ClickPause =>
      if isRunning (ui sys) then perform sys (timers sys) (handlePause, None)
      else sys
  | ClickStop =>
      if isRunning (ui sys) then perform sys (timers sys) (handleStop, None)
      else sys
  | ClickReset => perform sys (timers sys) (handleReset, None)
  | SelectWorkflow workflow =>
      {| ui := ui sys; activeWorkflow := workflow; timers := timers sys;
         trace := trace sys |}
  | TimerFires =>
      match timers sys with
      | [] => sys
      | t :: rest => perform sys rest (resume t)
      end
  end.

Definition run (sys : System) (evs : list Event) : System :=
  foldl step sys evs.

(** *** Reading a trace *)

(** The three pipeline stages a step name can stand for. *)
Inductive Stage := Script | Video | Upload.

Global Instance Stage_eq_dec : EqDecision Stage.
Proof. solve_decision. Defined.

(** The stage of a step name, by the tests of [stepCompleted]. *)
Definition stage_of (step : string) : option Stage :=
  if JS.includes step "Script" then Some Script
  else if JS.includes step "Video" then Some Video
  else if JS.includes step "Upload" then Some Upload
  else None.

(** A stage starts with the log line [Executing step: <name>]. *)
Definition stage_started (e : Effect) : option string :=
  match e with
  | onLog message => JS.afterPrefix "Executing step: " message
  | _ => None
  end.

(** The names of the stages started, in order. *)
Definition executed_steps (tr : list Effect) : list string :=
  omap stage_started tr.

(** The values passed to [setProgress], in order. *)
Definition progress_emitted (tr : list Effect) : list float :=
  omap (λ e, match e with setProgress v => Some v | _ => None end) tr.

Definition is_stop (e : Effect) : bool :=
  match e with
  | onLog message => String.eqb message "Workflow stopped"
  | _ => false
  end.

Definition is_run_start (e : Effect) : bool :=
  match e with
  | setIsRunning true => true
  | _ => false
  end.

(** No stage starts between a Stop and the next Start.  [stopped] says
    whether the most recent of the two was a Stop. *)
Fixpoint stop_honoured_from (stopped : bool) (tr : list Effect) : bool :=
  match tr with
  | [] => true
  | e :: tr' =>
      if is_run_start e then stop_honoured_from false tr'
      else if is_stop e then stop_honoured_from true tr'
      else if stage_started e is Some _
           then negb stopped && stop_honoured_from stopped tr'
           else stop_honoured_from stopped tr'
  end.

Definition stop_honoured (tr : list Effect) : bool :=
  stop_honoured_from false tr.

(** The number of [handleStart] calls that have begun and not ended. *)
Definition runs_in_flight (sys : System) : nat := length (timers sys).

(** The values passed to [setIsRunning], in order. *)
Definition flag_writes (tr : list Effect) : list bool :=
  omap (λ e, match e with setIsRunning b => Some b | _ => None end) tr.

(** A suspended loop waits inside its array. *)
Definition wf_task (t : Task) : Prop := i t < length (steps t).

(** The running flag tells whether a loop is in flight: up with exactly
    one loop waiting, down with none. *)
Definition exclusive (sys : System) : Prop :=
  Forall wf_task (timers sys)
  ∧ length (timers sys) = if isRunning (ui sys) then 1 else 0.

(** The two clicks that lower the flag without ending the loop. *)
Definition is_interrupt (ev : Event) : bool :=
  match ev with
  | ClickPause | ClickStop => true
  | _ => false
  end.

(** No run is going on: the flag is down and no timer is pending. *)
Definition idle (sys : System) : Prop :=
  isRunning (ui sys) = false ∧ timers sys = [].

(** What a [handleStart] call for [workflow] has written after [k] of its
    timers fired, when nothing else happened in between: its first
    segment, then the segments of iterations 0 to [k - 1]. *)
Definition uninterrupted (workflow : string) (k : nat) : list Effect :=
  (handleStart workflow).1
  ++ concat ((λ j, (resume (mkTask workflow (getWorkflowSteps workflow) j)).1)
               <$> seq 0 k).

End AutomationDashboard.

(** ** UploadManager: the upload form and the upload history *)

Module UploadManager.
Import React.

(** Of a browser [File] the component reads only [name]. *)
Record File := mkFile { name : string }.

Record UploadDetails := mkUploadDetails {
  title : string;
  description : string;
  tags : string;
  visibility : string;
  category : string;
  thumbnail : option File;
}.

Record ScheduleSettings := mkScheduleSettings {
  scheduleVideo : bool;
  timeSlot : string;
  timezone : string;
  autoTags : bool;
  autoCaptions : bool;
}.

(** [status: 'uploaded' | 'scheduled' | 'processing'] *)
Inductive Status := uploaded | scheduled | processing.

(** [interface UploadedVideo]; its fields are prefixed with [video_]
    where [UploadDetails] already has the name. *)
Record UploadedVideo := mkUploadedVideo {
  id : string;
  video_title : string;
  uploadedAt : string;
  status : Status;
  scheduledFor : option string;
}.

Global Instance Status_eq_dec : EqDecision Status.
Proof. solve_decision. Defined.
Global Instance UploadedVideo_eq_dec : EqDecision UploadedVideo.
Proof. solve_decision. Defined.

(** The six [useState] cells of the component. *)
Record State := mkState {
  videoFile : option File;
  uploadDetails : UploadDetails;
  scheduleSettings : ScheduleSettings;
  isUploading : bool;
  uploadProgress : float;
  uploadedVideos : list UploadedVideo;
}.

(** The value the form is reset to after an upload; also its initial
    value. *)
Definition emptyDetails : UploadDetails :=
  {| title := ""; description := ""; tags := ""; visibility := "public";
     category := "Entertainment"; thumbnail := None |}.

Definition initial : State :=
  {| videoFile := None;
     uploadDetails := emptyDetails;
     scheduleSettings :=
       {| scheduleVideo := true; timeSlot := "06:00";
          timezone := "Asia/Cairo"; autoTags := true;
          autoCaptions := true |};
     isUploading := false;
     uploadProgress := 0;
     uploadedVideos :=
       [ {| id := "vid_001"; video_title := "AI Productivity Tips";
            uploadedAt := "2024-01-15 14:30"; status := uploaded;
            scheduledFor := None |};
         {| id := "vid_002"; video_title := "Future of Technology";
            uploadedAt := "2024-01-14 09:15"; status := scheduled;
            scheduledFor := Some "2024-01-16 12:00" |} ] |}.

Definition uploadSteps : list string :=
  [ "Preparing video file"; "Uploading to YouTube"; "Processing video";
    "Setting metadata"; "Configuring privacy settings";
    "Generating auto-captions"; "Adding tags"; "Scheduling publication";
    "Upload complete" ].

(** What the system clock answers when the last part of [handleUpload]
    asks: [Date.now()], [new Date().toLocaleString()] and
    [new Date().toDateString()]. *)
Record Clock := mkClock {
  now : N;
  toLocaleString : string;
  toDateString : string;
}.

Inductive Effect :=
| setVideoFile (f : option File)
| setUploadDetails (a : SetStateAction UploadDetails)
| setScheduleSettings (a : SetStateAction ScheduleSettings)
| setIsUploading (b : bool)
| setUploadProgress (v : float)
| setUploadedVideos (a : SetStateAction (list UploadedVideo))
| onLog (message : string)
| toast_success (message : string)
| toast_error (message : string).

Definition apply (st : State) (e : Effect) : State :=
  match e with
  | setVideoFile f =>
      {| videoFile := f; uploadDetails := uploadDetails st;
         scheduleSettings := scheduleSettings st;
         isUploading := isUploading st;
         uploadProgress := uploadProgress st;
         uploadedVideos := uploadedVideos st |}
  | setUploadDetails a =>
      {| videoFile := videoFile st;
         uploadDetails := resolve a (uploadDetails st);
         scheduleSettings := scheduleSettings st;
         isUploading := isUploading st;
         uploadProgress := uploadProgress st;
         uploadedVideos := uploadedVideos st |}
  | setScheduleSettings a =>
      {| videoFile := videoFile st; uploadDetails := uploadDetails st;
         scheduleSettings := resolve a (scheduleSettings st);
         isUploading := isUploading st;
         uploadProgress := uploadProgress st;
         uploadedVideos := uploadedVideos st |}
  | setIsUploading b =>
      {| videoFile := videoFile st; uploadDetails := uploadDetails st;
         scheduleSettings := scheduleSettings st;
         isUploading := b;
         uploadProgress := uploadProgress st;
         uploadedVideos := uploadedVideos st |}
  | setUploadProgress v =>
      {| videoFile := videoFile st; uploadDetails := uploadDetails st;
         scheduleSettings := scheduleSettings st;
         isUploading := isUploading st;
         uploadProgress := v;
         uploadedVideos := uploadedVideos st |}
  | setUploadedVideos a =>
      {| videoFile := videoFile st; uploadDetails := uploadDetails st;
         scheduleSettings := scheduleSettings st;
         isUploading := isUploading st;
         uploadProgress := uploadProgress st;
         uploadedVideos := resolve a (uploadedVideos st) |}
  | onLog _ | toast_success _ | toast_error _ => st
  end.

(** A [handleUpload] call suspended at its [await]: the [uploadDetails]
    and [scheduleSettings] of the render whose button was clicked, and the
    loop counter. *)
Record Task := mkTask {
  task_details : UploadDetails;
  task_schedule : ScheduleSettings;
  i : nat;
}.

Definition Segment : Type := list Effect * option Task.

(** [const newVideo: UploadedVideo = { ... }] *)
Definition newVideo (details : UploadDetails) (schedule : ScheduleSettings)
    (clock : Clock) : UploadedVideo :=
  {| id := "vid_" +:+ pretty (now clock);
     video_title := title details;
     uploadedAt := toLocaleString clock;
     status := if scheduleVideo schedule then scheduled else uploaded;
     scheduledFor :=
       if scheduleVideo schedule
       then Some (toDateString clock +:+ " " +:+ timeSlot schedule)
       else None |}.

(** The statements of [handleUpload] after its loop. *)
Definition finish (details : UploadDetails) (schedule : ScheduleSettings)
    (clock : Clock) : list Effect :=
  [ setUploadedVideos
      (Updater (λ prev, newVideo details schedule clock :: prev));
    setIsUploading false;
    setUploadProgress 0;
    onLog "YouTube upload completed successfully";
    toast_success "Video uploaded successfully!";
    setVideoFile None;
    setUploadDetails (Value emptyDetails) ].

(** The loop of [handleUpload] from its test to the [await] of iteration
    [i]; when the test fails, [finish]. *)
Definition loop_from (details : UploadDetails)
    (schedule : ScheduleSettings) (clock : Clock) (i : nat) : Segment :=
  match uploadSteps !! i with
  | Some step =>
      ([ onLog ("Upload step: " +:+ step) ],
       Some {| task_details := details; task_schedule := schedule;
               i := i |})
  | None => (finish details schedule clock, None)
  end.

(** [handleUpload] up to its first [await], or to the [return] of one of
    its two checks.  The clock is not read here: the loop is entered with
    [i = 0 < uploadSteps.length]. *)
Definition handleUpload (st : State) (clock : Clock) : Segment :=
  match videoFile st with
  | None => ([ toast_error "Please select a video file first" ], None)
  | Some _ =>
      if negb (JS.truthy (JS.trim (title (uploadDetails st)))) then
        ([ toast_error "Please enter a video title" ], None)
      else
        let '(effects, task) :=
          loop_from (uploadDetails st) (scheduleSettings st) clock 0 in
        ([ setIsUploading true; setUploadProgress 0;
           onLog "Starting YouTube upload..." ] ++ effects,
         task)
  end.

(** [((i + 1) / uploadSteps.length) * 100] *)
Definition progressAfter (i : nat) : float :=
  PrimFloat.mul (PrimFloat.div (JS.num (i + 1)) (JS.num (length uploadSteps)))
                100.

(** [handleUpload] from the moment its timer fires. *)
Definition resume (t : Task) (clock : Clock) : Segment :=
  let '(effects, task) :=
    loop_from (task_details t) (task_schedule t) clock (i t + 1) in
  ([ setUploadProgress (progressAfter (i t)) ] ++ effects, task).

(** [handleVideoUpload]: [event.target.files?.[0]] may be missing. *)
Definition handleVideoUpload (file : option File) : list Effect :=
  match file with
  | Some f =>
      [ setVideoFile (Some f);
        onLog ("Video file selected: " +:+ name f);
        toast_success "Video file selected successfully!" ]
  | None => []
  end.

(** The [onChange] of the title input. *)
Definition changeTitle (value : string) : list Effect :=
  [ setUploadDetails (Updater (λ prev,
      {| title := value; description := description prev;
         tags := tags prev; visibility := visibility prev;
         category := category prev; thumbnail := thumbnail prev |})) ].

(** The [onCheckedChange] of the Schedule Video switch. *)
Definition changeScheduleVideo (checked : bool) : list Effect :=
  [ setScheduleSettings (Updater (λ prev,
      {| scheduleVideo := checked; timeSlot := timeSlot prev;
         timezone := timezone prev; autoTags := autoTags prev;
         autoCaptions := autoCaptions prev |})) ].

(** The [onValueChange] of the time slot selector. *)
Definition changeTimeSlot (value : string) : list Effect :=
  [ setScheduleSettings (Updater (λ prev,
      {| scheduleVideo := scheduleVideo prev; timeSlot := value;
         timezone := timezone prev; autoTags := autoTags prev;
         autoCaptions := autoCaptions prev |})) ].

(** *** The component in the browser *)
Record System := mkSystem {
  ui : State;
  timers : list Task;
  trace : list Effect;
}.

Definition boot : System := {| ui := initial; timers := []; trace := [] |}.

Definition perform (sys : System) (timers : list Task) (seg : Segment)
  : System :=
  {| ui := foldl apply (ui sys) seg.1;
     timers := timers ++ option_list seg.2;
     trace := trace sys ++ seg.1 |}.

(** The user picks a file, edits the title, flips the schedule switch,
    picks a time slot or clicks Upload; or the oldest timer fires, at
    which point the clock may be read. *)
Inductive Event :=
| ChooseVideo (file : option File)
| TypeTitle (value : string)
| SwitchSchedule (checked : bool)
| ChooseTimeSlot (value : string)
| ClickUpload (clock : Clock)
| TimerFires (clock : Clock).

(** The Upload button has [disabled={!videoFile || isUploading}]. *)
Definition step (sys : System) (ev : Event) : System :=
  match ev with
  | ChooseVideo file => perform sys (timers sys) (handleVideoUpload file, None)
  | TypeTitle value => perform sys (timers sys) (changeTitle value, None)
  | SwitchSchedule checked =>
      perform sys (timers sys) (changeScheduleVideo checked, None)
  | ChooseTimeSlot value =>
      perform sys (timers sys) (changeTimeSlot value, None)
  | ClickUpload clock =>
      if negb (bool_decide (is_Some (videoFile (ui sys))))
         || isUploading (ui sys)
      then sys
      else perform sys (timers sys) (handleUpload (ui sys) clock)
  | TimerFires clock =>
      match timers sys with
      | [] => sys
      | t :: rest => perform sys rest (resume t clock)
      end
  end.

Definition run (sys : System) (evs : list Event) : System :=
  foldl step sys evs.

(** One upload from the click to its end: the click, then one timer per
    entry of [uploadSteps].  [tick j] is what the clock would answer when
    timer [j] fires. *)
Definition whole_upload (click : Clock) (tick : nat → Clock) : list Event :=
  ClickUpload click :: ((λ j, TimerFires (tick j)) <$> seq 0 (length uploadSteps)).

(** The number of history records with a given title. *)
Definition count_title (t : string) (history : list UploadedVideo) : nat :=
  length (filter (λ v, video_title v = t) history).

End UploadManager.

(** ** ConfigManager: the retry budget and the selector table *)

Module ConfigManager.

(** The browser settings of the [config] state cell. *)
Record BrowserSettings := mkBrowserSettings {
  primaryBrowser : string;
  fallbackBrowser : string;
  retryAttempts : nat;
}.

(** A string between double quotes, as the attribute selectors of the
    table have them. *)
Definition quoted (s : string) : string :=
  String (ascii_of_nat 34) (s +:+ String (ascii_of_nat 34) EmptyString).

Definition config : BrowserSettings :=
  {| primaryBrowser := "edge"; fallbackBrowser := "chrome";
     retryAttempts := 3 |}.

Record CapcutSelectors := mkCapcutSelectors {
  loginButton : list string;
  capcut_uploadButton : list string;
  generateButton : list string;
}.

Record YoutubeSelectors := mkYoutubeSelectors {
  uploadButton : list string;
  titleInput : list string;
  descriptionInput : list string;
}.

Record Selectors := mkSelectors {
  capcut : CapcutSelectors;
  youtube : YoutubeSelectors;
}.

Definition selectors : Selectors :=
  {| capcut :=
       {| loginButton :=
            ["#login-btn"; ".login-button"; "[data-testid=" +:+ quoted "login" +:+ "]"];
          capcut_uploadButton :=
            ["#upload"; ".upload-btn";
             "[role=" +:+ quoted "button" +:+ "][aria-label=" +:+ quoted "Upload" +:+ "]"];
          generateButton := ["#generate"; ".generate-btn"; ".ai-generate"] |};
     youtube :=
       {| uploadButton :=
            ["#upload-btn"; ".upload-button"; "[aria-label=" +:+ quoted "Upload video" +:+ "]"];
          titleInput := ["#title"; ".title-input"; "[aria-label=" +:+ quoted "Title" +:+ "]"];
          descriptionInput :=
            ["#description"; ".description-textarea";
             "[aria-label=" +:+ quoted "Description" +:+ "]"] |} |}.

End ConfigManager.

(** ** RetryPolicy *)

Module RetryPolicy.

(** Modelled from the spec: the classified outcome of an ExecutionAttempt
    (spec section 3); RetryPolicy is not in the sources. *)
Inductive Outcome := Success | RetryableFailure | FatalFailure.

Global Instance Outcome_eq_dec : EqDecision Outcome.
Proof. solve_decision. Defined.

(** Modelled from the spec: what RetryPolicy.Run, which is not in the
    sources, does, in order.  It calls the operation ([Attempt], with the
    attempt number, counted from 1, and the classified outcome) or waits
    before a retry ([Backoff], with the number of the retry, counted from
    1, the backoff delay and the jitter added to it). *)
Inductive Action :=
| Attempt (attempt : nat) (outcome : Outcome)
| Backoff (retry : nat) (delay jitter : N).

(** Modelled from the spec: the result of RetryPolicy.Run, which is not in
    the sources: the value of a successful attempt, the error of a fatal
    one, or the attempts used up (with the last retryable error, if any). *)
Inductive Result (A E : Type) :=
| Ok (value : A)
| Fatal (error : E)
| Exhausted (last : option E).
Arguments Ok {A E} value.
Arguments Fatal {A E} error.
Arguments Exhausted {A E} last.

Section Run.
Context {A E : Type}.

(** What the wrapped operation returns the n-th time it is called. *)
Variable operation : nat → A + E.
(** The injected predicate that classifies a failure. *)
Variable retryable : E → bool.
(** The cap on the backoff delay, and the jitter added to the wait
    before each retry. *)
Variable maxDelay : N.
Variable jitter : nat → N.

Variable baseDelay : N.

(** Modelled from the spec: the backoff of RetryPolicy, which is not in
    the sources. [delay = baseDelay * 2^(attempt-1)], capped. *)
Definition delay (attempt : nat) : N :=
  N.min maxDelay (baseDelay * 2 ^ N.of_nat (attempt - 1)).

(** Modelled from the spec: the classification of RetryPolicy, which is
    not in the sources.  A failure is classified once, by the injected
    predicate. *)
Definition classify (r : A + E) : Outcome :=
  match r with
  | inl _ => Success
  | inr e => if retryable e then RetryableFailure else FatalFailure
  end.

(** Modelled from the spec: the loop of RetryPolicy.Run, which is not in
    the sources.  [remaining] attempts are left and the next one has
    number [attempt].  A success returns.  A fatal failure aborts at
    once.  A retryable failure uses up the attempt; when another is
    left, the policy waits [delay] plus jitter and tries again. *)
Fixpoint attempts (remaining attempt : nat) (last : option E)
  : Result A E * list Action :=
  match remaining with
  | 0 => (Exhausted last, [])
  | S remaining' =>
      let r := operation attempt in
      match r with
      | inl a => (Ok a, [Attempt attempt Success])
      | inr e =>
          if retryable e then
            match remaining' with
            | 0 => (Exhausted (Some e), [Attempt attempt RetryableFailure])
            | S _ =>
                let '(res, log) := attempts remaining' (S attempt) (Some e) in
                (res,
                 Attempt attempt RetryableFailure
                   :: Backoff attempt (delay attempt) (jitter attempt)
                   :: log)
            end
          else (Fatal e, [Attempt attempt FatalFailure])
      end
  end.

(** Modelled from the spec: RetryPolicy.Run(operation, maxAttempts,
    baseDelay), which is not in the sources. *)
Definition Run (maxAttempts : nat) : Result A E * list Action :=
  attempts maxAttempts 1 None.

End Run.

(** The attempts of a log, and its waits. *)
Definition attempts_of (log : list Action) : list (nat * Outcome) :=
  omap (λ a, match a with Attempt n o => Some (n, o) | _ => None end) log.

Definition backoffs_of (log : list Action) : list (nat * N) :=
  omap (λ a, match a with Backoff r d _ => Some (r, d) | _ => None end) log.

End RetryPolicy.

(** ** ElementLocator *)

Module ElementLocator.

(** Modelled from the spec: the two failures of ElementLocator.Resolve,
    which is not in the sources. *)
Inductive Error := ConfigurationError | ElementNotFound.

(** Modelled from the spec: one candidate check of ElementLocator, which
    is not in the sources: the candidate, the number of times the page was
    polled for it, and whether a poll found it. *)
Record CandidateCheck := mkCandidateCheck {
  candidate : string;
  polls : nat;
  found : bool;
}.

Section Resolve.
Context {ElementHandle : Type}.

(** The live browser session: what the page answers at poll tick [t]
    when asked for a selector.  Pages change while one waits. *)
Variable session : nat → string → option ElementHandle.

(** Modelled from the spec: the per-candidate wait of ElementLocator,
    which is not in the sources.  The page is polled for [selector] up
    to [budget] times, from tick [t]; the answer comes with the number
    of polls made. *)
Fixpoint poll (selector : string) (budget t : nat)
  : option ElementHandle * nat :=
  match budget with
  | 0 => (None, 0)
  | S budget' =>
      match session t selector with
      | Some h => (Some h, 1)
      | None =>
          let '(r, n) := poll selector budget' (S t) in (r, S n)
      end
  end.

(** Modelled from the spec: the iteration of ElementLocator.Resolve over
    its candidates, which is not in the sources.  Candidates are taken
    left to right; the first one a poll finds is returned and the rest
    is not looked at. *)
Fixpoint try_candidates (selectorCandidates : list string)
    (perCandidateTimeout t : nat)
  : (Error + ElementHandle) * list CandidateCheck :=
  match selectorCandidates with
  | [] => (inl ElementNotFound, [])
  | c :: rest =>
      match poll c perCandidateTimeout t with
      | (Some h, n) =>
          (inr h, [ {| candidate := c; polls := n; found := true |} ])
      | (None, n) =>
          let '(r, checks) :=
            try_candidates rest perCandidateTimeout (t + n) in
          (r, {| candidate := c; polls := n; found := false |} :: checks)
      end
  end.

(** Modelled from the spec: ElementLocator.Resolve(session,
    selectorCandidates, perCandidateTimeout), which is not in the
    sources.  An empty candidate list is a configuration error, reported
    before the browser is touched. *)
Definition Resolve (selectorCandidates : list string)
    (perCandidateTimeout t : nat)
  : (Error + ElementHandle) * list CandidateCheck :=
  match selectorCandidates with
  | [] => (inl ConfigurationError, [])
  | _ :: _ => try_candidates selectorCandidates perCandidateTimeout t
  end.

End Resolve.

(** The number of times the browser was asked anything. *)
Definition interactions (checks : list CandidateCheck) : nat :=
  sum_list_with polls checks.

End ElementLocator.

(** ** More JavaScript strings: case, split and join *)

Module JSStrings.

(** [String.prototype.toLowerCase] on one code unit below 256: the letters
    A to Z, and the accented capitals 192 to 222 except the multiplication
    sign 215, move up by 32. *)
Definition lowerChar (c : ascii) : ascii :=
  let n := nat_of_ascii c in
  if ((65 <=? n) && (n <=? 90))
     || ((192 <=? n) && (n <=? 222) && negb (n =? 215))
  then ascii_of_nat (n + 32)
  else c.

(** [s.toLowerCase()] *)
Fixpoint toLowerCase (s : string) : string :=
  match s with
  | EmptyString => EmptyString
  | String c s' => String (lowerChar c) (toLowerCase s')
  end.

(** [s.split(sep)] for a separator of one character.  The empty string
    splits into one empty piece. *)
Fixpoint split (sep : ascii) (s : string) : list string :=
  match s with
  | EmptyString => [ EmptyString ]
  | String c s' =>
      if Ascii.eqb c sep then EmptyString :: split sep s'
      else match split sep s' with
           | piece :: pieces => String c piece :: pieces
           | [] => [ String c EmptyString ]
           end
  end.

(** [arr.join(sep)] on an array of strings. *)
Fixpoint join (sep : string) (arr : list string) : string :=
  match arr with
  | [] => EmptyString
  | [ s ] => s
  | s :: rest => s +:+ sep +:+ join sep rest
  end.

(** The line feed, [\n], as a character and as a string. *)
Definition LF : ascii := ascii_of_nat 10.

Definition NL : string := String LF EmptyString.

(** Whether a character occurs in a string. *)
Fixpoint has (c : ascii) (s : string) : bool :=
  match s with
  | EmptyString => false
  | String a s' => Ascii.eqb a c || has c s'
  end.

(** A string that is empty or starts with a character [trim] keeps. *)
Definition starts_solid (s : string) : Prop :=
  match s with
  | EmptyString => True
  | String c _ => JS.isWhiteSpace c = false
  end.

End JSStrings.

(** ** UploadManager: the rest of the form *)

Module UploadManagerForm.
Import React UploadManager.

(** [handleThumbnailUpload]: [event.target.files?.[0]] may be missing. *)
Definition handleThumbnailUpload (file : option File) : list Effect :=
  match file with
  | Some f =>
      [ setUploadDetails (Updater (λ prev,
          {| title := title prev; description := description prev;
             tags := tags prev; visibility := visibility prev;
             category := category prev; thumbnail := Some f |}));
        onLog ("Thumbnail selected: " +:+ name f);
        toast_success "Thumbnail selected successfully!" ]
  | None => []
  end.

(** The local array [autoTags] of [generateAutoTags]. *)
Definition generateAutoTags_autoTags : list string :=
  [ "AI"; "Technology"; "Tutorial"; "Tips"; "Productivity";
    "Viral"; "Short"; "Trending"; "Educational"; "Entertainment" ].

(** [generateAutoTags]: [autoTags.slice(0, 5).join(', ')] becomes the tags. *)
Definition generateAutoTags : list Effect :=
  let selectedTags := JSStrings.join ", " (take 5 generateAutoTags_autoTags) in
  [ setUploadDetails (Updater (λ prev,
      {| title := title prev; description := description prev;
         tags := selectedTags; visibility := visibility prev;
         category := category prev; thumbnail := thumbnail prev |}));
    onLog "Auto-tags generated";
    toast_success "Auto-tags generated!" ].

(** The [onChange] handlers of the description and tags inputs and of the
    visibility and category selectors. *)
Definition changeDescription (value : string) : list Effect :=
  [ setUploadDetails (Updater (λ prev,
      {| title := title prev; description := value;
         tags := tags prev; visibility := visibility prev;
         category := category prev; thumbnail := thumbnail prev |})) ].

Definition changeTags (value : string) : list Effect :=
  [ setUploadDetails (Updater (λ prev,
      {| title := title prev; description := description prev;
         tags := value; visibility := visibility prev;
         category := category prev; thumbnail := thumbnail prev |})) ].

Definition changeVisibility (value : string) : list Effect :=
  [ setUploadDetails (Updater (λ prev,
      {| title := title prev; description := description prev;
         tags := tags prev; visibility := value;
         category := category prev; thumbnail := thumbnail prev |})) ].

Definition changeCategory (value : string) : list Effect :=
  [ setUploadDetails (Updater (λ prev,
      {| title := title prev; description := description prev;
         tags := tags prev; visibility := visibility prev;
         category := value; thumbnail := thumbnail prev |})) ].

(** The [onChange] of the timezone input and the [onCheckedChange] of the
    Auto Tags and Auto Captions switches. *)
Definition changeTimezone (value : string) : list Effect :=
  [ setScheduleSettings (Updater (λ prev,
      {| scheduleVideo := scheduleVideo prev; timeSlot := timeSlot prev;
         timezone := value; autoTags := autoTags prev;
         autoCaptions := autoCaptions prev |})) ].

Definition changeAutoTags (checked : bool) : list Effect :=
  [ setScheduleSettings (Updater (λ prev,
      {| scheduleVideo := scheduleVideo prev; timeSlot := timeSlot prev;
         timezone := timezone prev; autoTags := checked;
         autoCaptions := autoCaptions prev |})) ].

Definition changeAutoCaptions (checked : bool) : list Effect :=
  [ setScheduleSettings (Updater (λ prev,
      {| scheduleVideo := scheduleVideo prev; timeSlot := timeSlot prev;
         timezone := timezone prev; autoTags := autoTags prev;
         autoCaptions := checked |})) ].

(** Everything that can happen to the component: the events of
    [UploadManager.Event] and the ones of the remaining controls. *)
Inductive FormEvent :=
| Base (ev : Event)
| ChooseThumbnail (file : option File)
| ClickAutoGenerate
| TypeDescription (value : string)
| TypeTags (value : string)
| ChooseVisibility (value : string)
| ChooseCategory (value : string)
| TypeTimezone (value : string)
| SwitchAutoTags (checked : bool)
| SwitchAutoCaptions (checked : bool).

(** The timezone input is rendered only while Schedule Video is on. *)
Definition step (sys : System) (ev : FormEvent) : System :=
  match ev with
  | Base ev => UploadManager.step sys ev
  | ChooseThumbnail file =>
      perform sys (timers sys) (handleThumbnailUpload file, None)
  | ClickAutoGenerate => perform sys (timers sys) (generateAutoTags, None)
  | TypeDescription value =>
      perform sys (timers sys) (changeDescription value, None)
  | TypeTags value => perform sys (timers sys) (changeTags value, None)
  | ChooseVisibility value =>
      perform sys (timers sys) (changeVisibility value, None)
  | ChooseCategory value =>
      perform sys (timers sys) (changeCategory value, None)
  | TypeTimezone value =>
      if scheduleVideo (scheduleSettings (ui sys))
      then perform sys (timers sys) (changeTimezone value, None)
      else sys
  | SwitchAutoTags checked =>
      perform sys (timers sys) (changeAutoTags checked, None)
  | SwitchAutoCaptions checked =>
      perform sys (timers sys) (changeAutoCaptions checked, None)
  end.

Definition run (sys : System) (evs : list FormEvent) : System :=
  foldl step sys evs.

(** The calls that only touch the form: the file, the details, the
    schedule settings, the log and the toasts. *)
Definition form_effect (e : Effect) : bool :=
  match e with
  | setVideoFile _ | setUploadDetails _ | setScheduleSettings _
  | onLog _ | toast_success _ | toast_error _ => true
  | setIsUploading _ | setUploadProgress _ | setUploadedVideos _ => false
  end.

(** The events that neither click Upload nor fire a timer. *)
Definition edits_form (ev : FormEvent) : bool :=
  match ev with
  | Base (ClickUpload _) | Base (TimerFires _) => false
  | _ => true
  end.

(** Whether an event is a timer firing, and how many of a list are. *)
Definition is_timer (ev : FormEvent) : bool :=
  match ev with
  | Base (TimerFires _) => true
  | _ => false
  end.

Definition timer_count (evs : list FormEvent) : nat :=
  length (filter (λ ev, is_timer ev = true) evs).

(** The uploads a trace has seen complete. *)
Definition is_completion (e : Effect) : bool :=
  match e with
  | onLog message => String.eqb message "YouTube upload completed successfully"
  | _ => false
  end.

Definition completions (tr : list Effect) : nat :=
  sum_list_with (λ e, if is_completion e then 1 else 0) tr.

(** A record whose status and schedule agree: scheduled with a publication
    time, or uploaded without one. *)
Definition consistent (v : UploadedVideo) : bool :=
  match status v, scheduledFor v with
  | scheduled, Some _ => true
  | uploaded, None => true
  | _, _ => false
  end.

(** The uploading flag tells whether a [handleUpload] call is in flight:
    up with exactly one loop waiting inside [uploadSteps], down with none. *)
Definition one_upload (sys : System) : Prop :=
  if isUploading (ui sys)
  then ∃ t, timers sys = [ t ] ∧ i t < length uploadSteps
  else timers sys = [].

End UploadManagerForm.


(** ** ScriptGenerator: the form and the simulated generation *)

Module ScriptGeneratorPanel.

(** The eight [useState] cells.  [keywords] and [newKeyword] are the two
    cells of [ScriptGenerator.State]. *)
Record State := mkState {
  prompt : string;
  topic : string;
  tone : string;
  length : string;
  generatedScript : string;
  isGenerating : bool;
  keywordCells : ScriptGenerator.State;
}.

Definition initial : State :=
  {| prompt := ""; topic := ""; tone := "engaging"; length := "medium";
     generatedScript := ""; isGenerating := false;
     keywordCells := ScriptGenerator.initial |}.

Definition samplePrompts : list string :=
  [ "Create a viral YouTube short about productivity tips";
    "Generate a story about artificial intelligence";
    "Write a tutorial script about cooking basics";
    "Create an entertaining script about technology trends" ].

(** Every call a handler makes: the setters of the six cells above, the
    [onLog] prop, the toasts, [navigator.clipboard.writeText] and the click
    on the download link. *)
Inductive Effect :=
| setPrompt (v : string)
| setTopic (v : string)
| setTone (v : string)
| setLength (v : string)
| setGeneratedScript (v : string)
| setIsGenerating (b : bool)
| onLog (message : string)
| toast_success (message : string)
| toast_error (message : string)
| clipboard_writeText (text : string)
| download (filename content : string).

Definition apply (st : State) (e : Effect) : State :=
  match e with
  | setPrompt v =>
      {| prompt := v; topic := topic st; tone := tone st;
         length := length st; generatedScript := generatedScript st;
         isGenerating := isGenerating st; keywordCells := keywordCells st |}
  | setTopic v =>
      {| prompt := prompt st; topic := v; tone := tone st;
         length := length st; generatedScript := generatedScript st;
         isGenerating := isGenerating st; keywordCells := keywordCells st |}
  | setTone v =>
      {| prompt := prompt st; topic := topic st; tone := v;
         length := length st; generatedScript := generatedScript st;
         isGenerating := isGenerating st; keywordCells := keywordCells st |}
  | setLength v =>
      {| prompt := prompt st; topic := topic st; tone := tone st;
         length := v; generatedScript := generatedScript st;
         isGenerating := isGenerating st; keywordCells := keywordCells st |}
  | setGeneratedScript v =>
      {| prompt := prompt st; topic := topic st; tone := tone st;
         length := length st; generatedScript := v;
         isGenerating := isGenerating st; keywordCells := keywordCells st |}
  | setIsGenerating b =>
      {| prompt := prompt st; topic := topic st; tone := tone st;
         length := length st; generatedScript := generatedScript st;
         isGenerating := b; keywordCells := keywordCells st |}
  | onLog _ | toast_success _ | toast_error _
  | clipboard_writeText _ | download _ _ => st
  end.

(** A [handleGenerate] call suspended at its [await]: the state cells of
    the render whose closure it is. *)
Record Task := mkTask {
  render : State;
}.

Definition Segment : Type := list Effect * option Task.

(** [s || fallback] on strings. *)
Definition or_else (s fallback : string) : string :=
  if JS.truthy s then s else fallback.

(** The template literal [sampleScript], line by line. *)
Definition sampleScript (st : State) : string :=
  JSStrings.join JSStrings.NL
    [ "# " +:+ or_else (topic st) "Generated Video Script";
      "";
      "## Hook (0-3 seconds)";
      "Did you know that " +:+ or_else (topic st) "this simple trick"
        +:+ " can completely change your life? Stay tuned to find out how!";
      "";
      "## Main Content (3-45 seconds)";
      or_else (prompt st)
        ("Here's the main content of your script based on your prompt. "
         +:+ "This section would contain the core message, story, or "
         +:+ "information you want to convey to your audience.");
      "";
      "Today, I'm going to share with you the most important insights "
        +:+ "about this topic. First, let's understand the basics...";
      "";
      "[Continue with detailed explanation based on your prompt]";
      "";
      "## Call to Action (45-60 seconds)";
      "If you found this helpful, make sure to like this video and follow "
        +:+ "for more amazing content! What's your experience with this? "
        +:+ "Let me know in the comments below!";
      "";
      "## Tags";
      JSStrings.join ", " (ScriptGenerator.keywords (keywordCells st));
      "";
      "## Estimated Duration: 60 seconds";
      "## Tone: " +:+ tone st;
      "## Length: " +:+ length st ].

(** [handleGenerate] up to its [await]. *)
Definition handleGenerate (st : State) : Segment :=
  if negb (JS.truthy (JS.trim (prompt st)))
     && negb (JS.truthy (JS.trim (topic st)))
  then ([ toast_error "Please provide a prompt or topic" ], None)
  else ([ setIsGenerating true; onLog "Starting script generation..." ],
        Some {| render := st |}).

(** [handleGenerate] from the moment its timer fires. *)
Definition resume (t : Task) : list Effect :=
  [ setGeneratedScript (sampleScript (render t));
    setIsGenerating false;
    onLog "Script generation completed successfully";
    toast_success "Script generated successfully!" ].

Definition handleCopy (st : State) : list Effect :=
  [ clipboard_writeText (generatedScript st);
    toast_success "Script copied to clipboard!";
    onLog "Script copied to clipboard" ].

(** [handleDownload]; [now] is what [Date.now()] returns. *)
Definition handleDownload (st : State) (now : N) : list Effect :=
  [ download ("script_" +:+ pretty now +:+ ".txt") (generatedScript st);
    onLog "Script downloaded to file";
    toast_success "Script downloaded successfully!" ].

(** The keyword handlers, which write the two keyword cells only. *)
Definition keyword (st : State) (ev : ScriptGenerator.Event) : State :=
  {| prompt := prompt st; topic := topic st; tone := tone st;
     length := length st; generatedScript := generatedScript st;
     isGenerating := isGenerating st;
     keywordCells := ScriptGenerator.step (keywordCells st) ev |}.

Record System := mkSystem {
  ui : State;
  timers : list Task;
  trace : list Effect;
}.

Definition boot : System := {| ui := initial; timers := []; trace := [] |}.

Definition perform (sys : System) (timers : list Task) (seg : Segment)
  : System :=
  {| ui := foldl apply (ui sys) seg.1;
     timers := timers ++ option_list seg.2;
     trace := trace sys ++ seg.1 |}.

(** What can happen to the component: input in one of the fields or
    selectors, an event of the keyword widget, a click on a sample prompt,
    on Generate, Copy or Download, an edit of the generated script, or the
    timer of a generation firing. *)
Inductive Event :=
| TypeTopic (value : string)
| TypePrompt (value : string)
| ChooseTone (value : string)
| ChooseLength (value : string)
| Keyword (ev : ScriptGenerator.Event)
| ClickSample (index : nat)
| ClickGenerate
| EditScript (value : string)
| ClickCopy
| ClickDownload (now : N)
| TimerFires.

(** Generate has [disabled={isGenerating}]; the script's text area and the
    Copy and Download buttons are rendered only while [generatedScript] is
    not empty. *)
Definition step (sys : System) (ev : Event) : System :=
  match ev with
  | TypeTopic value => perform sys (timers sys) ([ setTopic value ], None)
  | TypePrompt value => perform sys (timers sys) ([ setPrompt value ], None)
  | ChooseTone value => perform sys (timers sys) ([ setTone value ], None)
  | ChooseLength value => perform sys (timers sys) ([ setLength value ], None)
  | Keyword ev =>
      {| ui := keyword (ui sys) ev; timers := timers sys;
         trace := trace sys |}
  | ClickSample index =>
      match samplePrompts !! index with
      | Some sample => perform sys (timers sys) ([ setPrompt sample ], None)
      | None => sys
      end
  | ClickGenerate =>
      if isGenerating (ui sys) then sys
      else perform sys (timers sys) (handleGenerate (ui sys))
  | EditScript value =>
      if JS.truthy (generatedScript (ui sys))
      then perform sys (timers sys) ([ setGeneratedScript value ], None)
      else sys
  | ClickCopy =>
      if JS.truthy (generatedScript (ui sys))
      then perform sys (timers sys) (handleCopy (ui sys), None)
      else sys
  | ClickDownload now =>
      if JS.truthy (generatedScript (ui sys))
      then perform sys (timers sys) (handleDownload (ui sys) now, None)
      else sys
  | TimerFires =>
      match timers sys with
      | [] => sys
      | t :: rest => perform sys rest (resume t, None)
      end
  end.

Definition run (sys : System) (evs : list Event) : System :=
  foldl step sys evs.

(** A generation was started from a form that had a prompt or a topic. *)
Definition has_subject (st : State) : Prop :=
  JS.trim (prompt st) ≠ "" ∨ JS.trim (topic st) ≠ "".

(** The generating flag tells whether a [handleGenerate] call is in
    flight: up with exactly one call waiting, down with none. *)
Definition one_generation (sys : System) : Prop :=
  if isGenerating (ui sys)
  then ∃ t, timers sys = [ t ] ∧ has_subject (render t)
  else timers sys = [].

Definition is_timer (ev : Event) : bool :=
  match ev with
  | TimerFires => true
  | _ => false
  end.

(** The events other than a click on Generate and a timer. *)
Definition edits (ev : Event) : bool :=
  match ev with
  | ClickGenerate | TimerFires => false
  | _ => true
  end.

End ScriptGeneratorPanel.

(** ** ConfigManager: the selector text areas *)

Module ConfigManagerForm.
Import ConfigManager.

(** What a text area of the Selectors tab shows: [list.join('\n')]. *)
Definition shown (list : list string) : string :=
  JSStrings.join JSStrings.NL list.

(** What its [onChange] stores:
    [e.target.value.split('\n').filter(s => s.trim())]. *)
Definition parseCandidates (value : string) : list string :=
  filter (λ s, JS.truthy (JS.trim s) = true)
         (JSStrings.split JSStrings.LF value).

(** The four text areas.  The lists [generateButton] and
    [descriptionInput] have none. *)
Inductive Event :=
| TypeCapcutLogin (value : string)
| TypeCapcutUpload (value : string)
| TypeYoutubeUpload (value : string)
| TypeYoutubeTitle (value : string).

(** The updater each [onChange] passes to [setSelectors]. *)
Definition step (prev : Selectors) (ev : Event) : Selectors :=
  match ev with
  | TypeCapcutLogin value =>
      {| capcut :=
           {| loginButton := parseCandidates value;
              capcut_uploadButton := capcut_uploadButton (capcut prev);
              generateButton := generateButton (capcut prev) |};
         youtube := youtube prev |}
  | TypeCapcutUpload value =>
      {| capcut :=
           {| loginButton := loginButton (capcut prev);
              capcut_uploadButton := parseCandidates value;
              generateButton := generateButton (capcut prev) |};
         youtube := youtube prev |}
  | TypeYoutubeUpload value =>
      {| capcut := capcut prev;
         youtube :=
           {| uploadButton := parseCandidates value;
              titleInput := titleInput (youtube prev);
              descriptionInput := descriptionInput (youtube prev) |} |}
  | TypeYoutubeTitle value =>
      {| capcut := capcut prev;
         youtube :=
           {| uploadButton := uploadButton (youtube prev);
              titleInput := parseCandidates value;
              descriptionInput := descriptionInput (youtube prev) |} |}
  end.

Definition run (evs : list Event) : Selectors := foldl step selectors evs.

(** The list a text area edits, and the event of typing into it. *)
Inductive Area := CapcutLogin | CapcutUpload | YoutubeUpload | YoutubeTitle.

Definition candidates (area : Area) (s : Selectors) : list string :=
  match area with
  | CapcutLogin => loginButton (capcut s)
  | CapcutUpload => capcut_uploadButton (capcut s)
  | YoutubeUpload => uploadButton (youtube s)
  | YoutubeTitle => titleInput (youtube s)
  end.

Definition type_into (area : Area) (value : string) : Event :=
  match area with
  | CapcutLogin => TypeCapcutLogin value
  | CapcutUpload => TypeCapcutUpload value
  | YoutubeUpload => TypeYoutubeUpload value
  | YoutubeTitle => TypeYoutubeTitle value
  end.

(** A selector that fills one line: not blank, and without a line feed. *)
Definition one_line (s : string) : Prop :=
  JS.truthy (JS.trim s) = true ∧ JSStrings.has JSStrings.LF s = false.

End ConfigManagerForm.

(** ** AutomationDashboard: what the cells can hold *)

Module AutomationDashboardCells.
Import React AutomationDashboard.

(** A suspended loop that iterates over the table entry of its workflow
    and waits inside it. *)
Definition table_task (t : Task) : Prop :=
  steps t = getWorkflowSteps (task_workflow t) ∧ i t < length (steps t).

(** The values [setProgress] is called with: 0, and [stepProgress j m] for
    the step [j] of a table entry of [m] steps. *)
Definition percentages_shown : list float :=
  0%float :: (m ← [1; 2; 3]; (λ j, stepProgress j m) <$> seq 0 m).

(** How many steps of a table entry stand for a stage. *)
Definition stages (kind : Stage) (steps : list string) : nat :=
  length (filter (λ step, stage_of step = Some kind) steps).

(** [prev => prev + 1], [n] times. *)
Definition incremented (n : nat) (counter : float) : float :=
  Nat.iter n (λ prev, PrimFloat.add prev 1) counter.

End AutomationDashboardCells.

(** ** Index: the log of the page *)

Module Index.

(** The line [addLog] builds, [`[${timestamp}] ${message}`]; [timestamp]
    is what [new Date().toLocaleTimeString()] returned. *)
Definition line (timestamp message : string) : string :=
  "[" +:+ timestamp +:+ "] " +:+ message.

(** [addLog], as the updater it passes to [setLogs]. *)
Definition addLog (timestamp message : string) (prev : list string)
  : list string :=
  prev ++ [ line timestamp message ].

End Index.

(** ** LogViewer: levels, filters and the parts of a line *)

Module LogViewer.

(** [getLogLevel] *)
Definition getLogLevel (log : string) : string :=
  let logLower := JSStrings.toLowerCase log in
  if JS.includes logLower "error" || JS.includes logLower "failed"
  then "error"
  else if JS.includes logLower "warning" || JS.includes logLower "warn"
  then "warning"
  else if JS.includes logLower "completed" || JS.includes logLower "success"
  then "success"
  else if JS.includes logLower "started" || JS.includes logLower "starting"
  then "info"
  else "debug".

(** The [switch] on [logLevel] in the filter of the effect. *)
Definition levelTest (logLevel log : string) : bool :=
  let logLower := JSStrings.toLowerCase log in
  if String.eqb logLevel "error" then
    JS.includes logLower "error" || JS.includes logLower "failed"
  else if String.eqb logLevel "warning" then
    JS.includes logLower "warning" || JS.includes logLower "warn"
  else if String.eqb logLevel "info" then
    JS.includes logLower "info" || JS.includes logLower "completed"
  else if String.eqb logLevel "debug" then
    JS.includes logLower "debug" || JS.includes logLower "step"
  else true.

(** The value the effect passes to [setFilteredLogs]. *)
Definition filterLogs (logs : list string) (searchTerm logLevel : string)
  : list string :=
  let filtered :=
    if JS.truthy searchTerm
    then filter (λ log,
                   JS.includes (JSStrings.toLowerCase log)
                               (JSStrings.toLowerCase searchTerm) = true)
                logs
    else logs in
  if negb (String.eqb logLevel "all")
  then filter (λ log, levelTest logLevel log = true) filtered
  else filtered.

(** [logs.filter(log => getLogLevel(log) === level).length], the numbers
    of the statistics line. *)
Definition count (level : string) (logs : list string) : nat :=
  length (filter (λ log, getLogLevel log = level) logs).

(** The class [[\d:]] of the two regular expressions. *)
Definition isStampChar (c : ascii) : bool :=
  let n := nat_of_ascii c in
  ((48 <=? n) && (n <=? 57)) || (n =? 58).

(** The longest prefix of [s] made of such characters, and the rest. *)
Fixpoint stampRun (s : string) : string * string :=
  match s with
  | String c s' =>
      if isStampChar c
      then let '(digits, rest) := stampRun s' in (String c digits, rest)
      else (EmptyString, s)
  | EmptyString => (EmptyString, EmptyString)
  end.

(** A match of [/\[([\d:]+)\]/] that starts at the first character of [s]:
    the group and what follows the match.  The group is the whole run of
    class characters after the bracket: a shorter one would be followed by a
    class character, not by the closing bracket. *)
Definition matchHere (s : string) : option (string * string) :=
  match s with
  | String c s' =>
      if Ascii.eqb c "[" then
        match stampRun s' with
        | (String d digits, String c' after) =>
            if Ascii.eqb c' "]" then Some (String d digits, after) else None
        | _ => None
        end
      else None
  | EmptyString => None
  end.

(** The leftmost match in [s]: what precedes it, the group, and what
    follows it. *)
Fixpoint exec (s : string) : option (string * string * string) :=
  match matchHere s with
  | Some (group, after) => Some (EmptyString, group, after)
  | None =>
      match s with
      | String c s' =>
          match exec s' with
          | Some (before, group, after) => Some (String c before, group, after)
          | None => None
          end
      | EmptyString => None
      end
  end.

(** [log.match(/\[([\d:]+)\]/)?.[1] || ''] *)
Definition timestamp (log : string) : string :=
  match exec log with
  | Some (_, group, _) => group
  | None => EmptyString
  end.

(** [log.replace(/\[[\d:]+\]\s*/, '')]: the first match goes, with the
    white space after it. *)
Definition message (log : string) : string :=
  match exec log with
  | Some (before, _, after) => before +:+ JS.trimStart after
  | None => log
  end.

(** Whether every character of a string is of the class. *)
Fixpoint allStamp (s : string) : bool :=
  match s with
  | String c s' => isStampChar c && allStamp s'
  | EmptyString => true
  end.

End LogViewer.

(** ** VideoCreator: the simulated creation and its progress panel *)

Module VideoCreator.
Import React.

Record VideoSettings := mkVideoSettings {
  voice : string;
  style : string;
  aspectRatio : string;
  quality : string;
  fps : float;
  duration : float;
}.

(** The six [useState] cells. *)
Record State := mkState {
  scriptFile : option UploadManager.File;
  videoSettings : VideoSettings;
  isCreating : bool;
  progress : float;
  currentStep : string;
  createdVideo : option string;
}.

Definition initial : State :=
  {| scriptFile := None;
     videoSettings :=
       {| voice := "elfy"; style := "anime"; aspectRatio := "9:16";
          quality := "1080p"; fps := 60; duration := 60 |};
     isCreating := false; progress := 0; currentStep := "";
     createdVideo := None |}.

Definition creationSteps : list string :=
  [ "Analyzing script content";
    "Generating voiceover";
    "Creating visual elements";
    "Applying anime style";
    "Synchronizing audio and video";
    "Rendering final video";
    "Optimizing for platform" ].

Inductive Effect :=
| setScriptFile (file : UploadManager.File)
| setVideoSettings (a : SetStateAction VideoSettings)
| setIsCreating (b : bool)
| setProgress (v : float)
| setCurrentStep (s : string)
| setCreatedVideo (videoId : string)
| onLog (message : string)
| toast_success (message : string)
| toast_info (message : string)
| toast_error (message : string).

Definition apply (st : State) (e : Effect) : State :=
  match e with
  | setScriptFile file =>
      {| scriptFile := Some file; videoSettings := videoSettings st;
         isCreating := isCreating st; progress := progress st;
         currentStep := currentStep st; createdVideo := createdVideo st |}
  | setVideoSettings a =>
      {| scriptFile := scriptFile st;
         videoSettings := resolve a (videoSettings st);
         isCreating := isCreating st; progress := progress st;
         currentStep := currentStep st; createdVideo := createdVideo st |}
  | setIsCreating b =>
      {| scriptFile := scriptFile st; videoSettings := videoSettings st;
         isCreating := b; progress := progress st;
         currentStep := currentStep st; createdVideo := createdVideo st |}
  | setProgress v =>
      {| scriptFile := scriptFile st; videoSettings := videoSettings st;
         isCreating := isCreating st; progress := v;
         currentStep := currentStep st; createdVideo := createdVideo st |}
  | setCurrentStep s =>
      {| scriptFile := scriptFile st; videoSettings := videoSettings st;
         isCreating := isCreating st; progress := progress st;
         currentStep := s; createdVideo := createdVideo st |}
  | setCreatedVideo videoId =>
      {| scriptFile := scriptFile st; videoSettings := videoSettings st;
         isCreating := isCreating st; progress := progress st;
         currentStep := currentStep st; createdVideo := Some videoId |}
  | onLog _ | toast_success _ | toast_info _ | toast_error _ => st
  end.

(** A [handleCreateVideo] call suspended at its [await]: its loop counter.
    The delay of its timer, [Math.random() * 2000 + 1000], decides when the
    timer fires, which is for the events to say. *)
Record Task := mkTask {
  i : nat;
}.

Definition Segment : Type := list Effect * option Task.

(** [((i + 1) / creationSteps.length) * 100], in the handler and, for
    [index], in the list of steps of the panel. *)
Definition stepProgress (i : nat) : float :=
  PrimFloat.mul
    (PrimFloat.div (JS.num (i + 1)) (JS.num (length creationSteps))) 100.

(** The loop of [handleCreateVideo] from its test to the [await] of
    iteration [i]; when the test fails, the statements after the loop, where
    [now] is what [Date.now()] returns. *)
Definition loop_from (i : nat) (now : N) : Segment :=
  match creationSteps !! i with
  | Some step =>
      ([ setCurrentStep step;
         onLog ("Step " +:+ pretty (i + 1) +:+ ": " +:+ step) ],
       Some {| i := i |})
  | None =>
      ([ setCreatedVideo ("video_" +:+ pretty now);
         setIsCreating false;
         setCurrentStep "Completed";
         onLog "Video creation completed successfully";
         toast_success "Video created successfully!" ],
       None)
  end.

(** [handleCreateVideo] up to its first [await]. *)
Definition handleCreateVideo (st : State) (now : N) : Segment :=
  match scriptFile st with
  | None => ([ toast_error "Please upload a script file first" ], None)
  | Some _ =>
      let '(effects, task) := loop_from 0 now in
      ([ setIsCreating true; setProgress 0;
         onLog "Starting video creation process..." ] ++ effects,
       task)
  end.

(** [handleCreateVideo] from the moment its timer fires to the next
    [await] or to its end. *)
Definition resume (t : Task) (now : N) : Segment :=
  let '(effects, task) := loop_from (i t + 1) now in
  ([ setProgress (stepProgress (i t)) ] ++ effects, task).

(** [handleScriptUpload]: [event.target.files?.[0]] may be missing. *)
Definition handleScriptUpload (file : option UploadManager.File)
  : list Effect :=
  match file with
  | Some f =>
      [ setScriptFile f;
        onLog ("Script file uploaded: " +:+ UploadManager.name f);
        toast_success "Script file uploaded successfully!" ]
  | None => []
  end.

Definition handlePreview : list Effect :=
  [ onLog "Opening video preview...";
    toast_info "Video preview would open in CapCut" ].

Definition handleDownload : list Effect :=
  [ onLog "Downloading video..."; toast_success "Video download started" ].

(** The [onChange] and [onValueChange] handlers of the settings.  For the
    frame rate and the duration the argument is what [parseInt] returned. *)
Definition changeVoice (value : string) : list Effect :=
  [ setVideoSettings (Updater (λ prev,
      {| voice := value; style := style prev;
         aspectRatio := aspectRatio prev; quality := quality prev;
         fps := fps prev; duration := duration prev |})) ].

Definition changeStyle (value : string) : list Effect :=
  [ setVideoSettings (Updater (λ prev,
      {| voice := voice prev; style := value;
         aspectRatio := aspectRatio prev; quality := quality prev;
         fps := fps prev; duration := duration prev |})) ].

Definition changeAspectRatio (value : string) : list Effect :=
  [ setVideoSettings (Updater (λ prev,
      {| voice := voice prev; style := style prev;
         aspectRatio := value; quality := quality prev;
         fps := fps prev; duration := duration prev |})) ].

Definition changeQuality (value : string) : list Effect :=
  [ setVideoSettings (Updater (λ prev,
      {| voice := voice prev; style := style prev;
         aspectRatio := aspectRatio prev; quality := value;
         fps := fps prev; duration := duration prev |})) ].

Definition changeFps (parsed : float) : list Effect :=
  [ setVideoSettings (Updater (λ prev,
      {| voice := voice prev; style := style prev;
         aspectRatio := aspectRatio prev; quality := quality prev;
         fps := parsed; duration := duration prev |})) ].

Definition changeDuration (parsed : float) : list Effect :=
  [ setVideoSettings (Updater (λ prev,
      {| voice := voice prev; style := style prev;
         aspectRatio := aspectRatio prev; quality := quality prev;
         fps := fps prev; duration := parsed |})) ].

Record System := mkSystem {
  ui : State;
  timers : list Task;
  trace : list Effect;
}.

Definition boot : System := {| ui := initial; timers := []; trace := [] |}.

Definition perform (sys : System) (timers : list Task) (seg : Segment)
  : System :=
  {| ui := foldl apply (ui sys) seg.1;
     timers := timers ++ option_list seg.2;
     trace := trace sys ++ seg.1 |}.

(** What can happen to the component.  The clicks on Create and the
    timers come with the value [Date.now()] would return then. *)
Inductive Event :=
| ChooseScript (file : option UploadManager.File)
| TypeVoice (value : string)
| ChooseStyle (value : string)
| ChooseAspectRatio (value : string)
| ChooseQuality (value : string)
| ChooseFps (parsed : float)
| TypeDuration (parsed : float)
| ClickCreate (now : N)
| ClickPreview
| ClickDownload
| TimerFires (now : N).

(** Create has [disabled={!scriptFile || isCreating}]; Preview and Download
    are rendered once [createdVideo] is set. *)
Definition step (sys : System) (ev : Event) : System :=
  match ev with
  | ChooseScript file =>
      perform sys (timers sys) (handleScriptUpload file, None)
  | TypeVoice value => perform sys (timers sys) (changeVoice value, None)
  | ChooseStyle value => perform sys (timers sys) (changeStyle value, None)
  | ChooseAspectRatio value =>
      perform sys (timers sys) (changeAspectRatio value, None)
  | ChooseQuality value =>
      perform sys (timers sys) (changeQuality value, None)
  | ChooseFps parsed => perform sys (timers sys) (changeFps parsed, None)
  | TypeDuration parsed =>
      perform sys (timers sys) (changeDuration parsed, None)
  | ClickCreate now =>
      if negb (bool_decide (is_Some (scriptFile (ui sys))))
         || isCreating (ui sys)
      then sys
      else perform sys (timers sys) (handleCreateVideo (ui sys) now)
  | ClickPreview =>
      if createdVideo (ui sys) is Some _
      then perform sys (timers sys) (handlePreview, None)
      else sys
  | ClickDownload =>
      if createdVideo (ui sys) is Some _
      then perform sys (timers sys) (handleDownload, None)
      else sys
  | TimerFires now =>
      match timers sys with
      | [] => sys
      | t :: rest => perform sys rest (resume t now)
      end
  end.

Definition run (sys : System) (evs : list Event) : System :=
  foldl step sys evs.

(** *** The progress panel *)

(** [progress >= stepProgress], the test that ticks a step of the list. *)
Definition isCompleted (st : State) (index : nat) : bool :=
  PrimFloat.leb (stepProgress index) (progress st).

(** The ticks of the seven steps, in order. *)
Definition ticks (st : State) : list bool :=
  isCompleted st <$> seq 0 (length creationSteps).

(** [Math.round(progress)], the percentage next to the bar. *)
Definition percent (st : State) : float := JS.Math_round (progress st).

Definition is_timer (ev : Event) : bool :=
  match ev with
  | TimerFires _ => true
  | _ => false
  end.

Definition timer_count (evs : list Event) : nat :=
  length (filter (λ ev, is_timer ev = true) evs).

(** The events other than a click on Create and a timer. *)
Definition edits (ev : Event) : bool :=
  match ev with
  | ClickCreate _ | TimerFires _ => false
  | _ => true
  end.

(** The progress cell after [k] timers of a creation. *)
Definition progress_after (k : nat) : float :=
  match k with
  | 0 => 0%float
  | S j => stepProgress j
  end.

End VideoCreator.
(* ===================================================================== *)
(** * Part II: properties                                                 *)
(* ===================================================================== *)

(** ** ScriptGenerator: the keyword list is an ordered set *)

Module ScriptGeneratorSpec.
Import ScriptGenerator.

Lemma truthy_false (s : string) : JS.truthy s = false ↔ s = "".
Proof. destruct s; simpl; split; congruence. Qed.

(** The guard of [handleAddKeyword], said with propositions. *)
Lemma add_guard (kws : list string) (k : string) :
  JS.truthy k && negb (JS.arrayIncludes kws k) = false ↔ k = "" ∨ k ∈ kws.
Proof.
  unfold JS.arrayIncludes.
  rewrite andb_false_iff, truthy_false, negb_false_iff, bool_decide_eq_true.
  done.
Qed.

Lemma handleAddKeyword_spec (st : State) :
  handleAddKeyword st =
    if decide (JS.trim (newKeyword st) = "" ∨
               JS.trim (newKeyword st) ∈ keywords st)
    then st
    else {| keywords := keywords st ++ [JS.trim (newKeyword st)];
            newKeyword := "" |}.
Proof.
  unfold handleAddKeyword; cbv zeta.
  destruct (JS.truthy _ && _) eqn:G.
  - rewrite decide_False; [done|]. rewrite <- add_guard. congruence.
  - rewrite decide_True; [done|]. by apply add_guard.
Qed.

Lemma step_NoDup (st : State) (ev : Event) :
  NoDup (keywords st) → NoDup (keywords (step st ev)).
Proof.
  intros ND. destruct ev as [text| |keyword]; simpl.
  - done.
  - rewrite handleAddKeyword_spec. case_decide as G; [done|]. simpl.
    apply NoDup_app. split_and!; [done| |apply NoDup_singleton].
    intros x Hx ->%list_elem_of_singleton. tauto.
  - by apply NoDup_filter.
Qed.

Lemma run_snoc (evs : list Event) (ev : Event) :
  run (evs ++ [ev]) = step (run evs) ev.
Proof. apply foldl_snoc. Qed.

Lemma run_NoDup (evs : list Event) : NoDup (keywords (run evs)).
Proof.
  induction evs as [|ev evs IH] using rev_ind.
  - apply NoDup_nil_2.
  - rewrite run_snoc. by apply step_NoDup.
Qed.

Lemma filter_ext_in {A} (P Q : A → Prop) `{!∀ x, Decision (P x)}
    `{!∀ x, Decision (Q x)} (l : list A) :
  (∀ x, x ∈ l → P x ↔ Q x) → filter P l = filter Q l.
Proof.
  induction l as [|a l IH]; intros Hext; [done|].
  rewrite !filter_cons.
  rewrite IH by (intros x Hx; apply Hext; by right).
  destruct (decide (P a)) as [p|np], (decide (Q a)) as [q|nq]; try done.
  - destruct nq. apply Hext; [by left|done].
  - destruct np. apply Hext; [by left|done].
Qed.

Lemma filter_all {A} (P : A → Prop) `{!∀ x, Decision (P x)} (l : list A) :
  (∀ x, x ∈ l → P x) → filter P l = l.
Proof.
  induction l as [|a l IH]; intros Hall; [done|].
  rewrite filter_cons_True by (apply Hall; by left).
  f_equal. apply IH. intros x Hx. apply Hall. by right.
Qed.

(** One event keeps the keywords that survive it in the order they had,
    and puts a new keyword behind them. *)
Lemma step_order (st : State) (ev : Event) :
  filter (.∈ keywords (step st ev)) (keywords st)
    `prefix_of` keywords (step st ev).
Proof.
  destruct ev as [text| |keyword]; simpl.
  - by rewrite filter_all.
  - rewrite handleAddKeyword_spec. case_decide as G; simpl.
    + by rewrite filter_all.
    + rewrite filter_all; [by apply prefix_app_r|].
      intros x Hx. apply elem_of_app. by left.
  - rewrite (filter_ext_in _ (λ k, k ≠ keyword)); [done|].
    intros x Hx. rewrite list_elem_of_filter. tauto.
Qed.

Lemma keys_filter (keyword : string) (l : list (string * nat)) :
  (filter (λ e, e.1 ≠ keyword) l).*1 = filter (λ k, k ≠ keyword) l.*1.
Proof.
  induction l as [|[k n] l IH]; [done|].
  rewrite fmap_cons, !filter_cons. simpl.
  destruct (decide (k ≠ keyword)); [rewrite fmap_cons|]; by rewrite IH.
Qed.

(** Erasing the stamps of the stamped run gives the run. *)
Lemma stamped_erase (evs : list Event) :
  (entries (stamped_run evs)).*1 = keywords (run evs)
  ∧ pending (stamped_run evs) = newKeyword (run evs).
Proof.
  induction evs as [|ev evs [IHk IHp]] using rev_ind; [done|].
  unfold stamped_run in *. rewrite run_snoc, foldl_snoc.
  destruct ev as [text| |keyword]; simpl.
  - done.
  - unfold handleAddKeyword; cbv zeta. rewrite IHk, IHp.
    destruct (JS.truthy _ && _); simpl; [|done].
    by rewrite fmap_app, IHk.
  - split; [|done]. by rewrite keys_filter, IHk.
Qed.

Lemma Forall_stamps_filter (P : nat → Prop) (keep : string * nat → Prop)
    `{!∀ e, Decision (keep e)} (l : list (string * nat)) :
  Forall P l.*2 → Forall P (filter keep l).*2.
Proof.
  induction l as [|e l IH]; [done|].
  rewrite fmap_cons, Forall_cons, filter_cons. intros [He Hl].
  destruct (decide (keep e)); [|by apply IH].
  rewrite fmap_cons, Forall_cons. split; [done|by apply IH].
Qed.

Lemma sorted_stamps_filter (keep : string * nat → Prop)
    `{!∀ e, Decision (keep e)} (l : list (string * nat)) :
  StronglySorted lt l.*2 → StronglySorted lt (filter keep l).*2.
Proof.
  induction l as [|e l IH]; [done|].
  rewrite fmap_cons, StronglySorted_cons, filter_cons. intros [He Hl].
  destruct (decide (keep e)); [|by apply IH].
  rewrite fmap_cons, StronglySorted_cons.
  split; [by apply Forall_stamps_filter|by apply IH].
Qed.

(** The stamps of the stamped run grow along the list and are older than
    its clock. *)
Lemma stamped_sorted (evs : list Event) :
  StronglySorted lt (entries (stamped_run evs)).*2
  ∧ Forall (λ n, n < clock (stamped_run evs)) (entries (stamped_run evs)).*2.
Proof.
  induction evs as [|ev evs [IHs IHc]] using rev_ind.
  { split; constructor. }
  unfold stamped_run in *. rewrite foldl_snoc.
  set (st := foldl stamped_step _ evs) in *.
  assert (Forall (λ n, n < S (clock st)) (entries st).*2) as IHc'.
  { eapply Forall_impl; [exact IHc|]. intros n Hn; simpl in *. lia. }
  destruct ev as [text| |keyword]; simpl.
  - done.
  - destruct (JS.truthy _ && _); simpl; [|done].
    rewrite fmap_app; simpl. split.
    + apply StronglySorted_app. split_and!; [|done|repeat constructor].
      intros n1 n2 H1 ->%list_elem_of_singleton.
      by eapply Forall_forall in IHc.
    + apply Forall_app. split; [done|]. repeat constructor.
  - split; [by apply sorted_stamps_filter|by apply Forall_stamps_filter].
Qed.

(** C8. The keyword list is an ordered set.  After any sequence of typing,
    adding and removing: the list has no duplicates; it is the list of
    the stamped run, whose stamps (the times of insertion) grow from left
    to right; the next event, whatever it is, keeps the surviving
    keywords in their order and in front of a new one; and typing a text
    and adding it leaves the list as it is when the trimmed text is empty
    or already in the list, and appends the trimmed text otherwise. *)
Theorem keywords_ordered_set (evs : list Event) :
  NoDup (keywords (run evs))
  ∧ (entries (stamped_run evs)).*1 = keywords (run evs)
  ∧ StronglySorted lt (entries (stamped_run evs)).*2
  ∧ (∀ ev : Event,
       filter (.∈ keywords (step (run evs) ev)) (keywords (run evs))
         `prefix_of` keywords (step (run evs) ev))
  ∧ (∀ text : string,
       keywords (run (evs ++ [TypeKeyword text; AddKeyword])) =
         if decide (JS.trim text = "" ∨ JS.trim text ∈ keywords (run evs))
         then keywords (run evs)
         else keywords (run evs) ++ [JS.trim text])
  ∧ (∀ keyword : string,
       keywords (run (evs ++ [RemoveKeyword keyword])) =
         filter (λ k, k ≠ keyword) (keywords (run evs))).
Proof.
  split_and!.
  - apply run_NoDup.
  - apply stamped_erase.
  - apply stamped_sorted.
  - intros ev. apply step_order.
  - intros text. unfold run. rewrite foldl_app. simpl.
    rewrite handleAddKeyword_spec. simpl. by case_decide.
  - intros keyword. by rewrite run_snoc.
Qed.

(** A run that types, adds, repeats, removes and adds again. *)
Example keywords_run :
  keywords (run [ TypeKeyword " ai "; AddKeyword;
                  TypeKeyword "ai"; AddKeyword;
                  TypeKeyword "   "; AddKeyword;
                  TypeKeyword "tips"; AddKeyword;
                  RemoveKeyword "ai";
                  TypeKeyword "ai"; AddKeyword ])
  = ["tips"; "ai"].
Proof. reflexivity. Qed.

End ScriptGeneratorSpec.

(** ** AutomationDashboard *)

Module AutomationDashboardSpec.
Import React AutomationDashboard.

(** *** Reading traces *)

Lemma afterPrefix_app (p s : string) : JS.afterPrefix p (p +:+ s) = Some s.
Proof.
  induction p as [|a p IH]; [by destruct s|].
  simpl. by rewrite Ascii.eqb_refl.
Qed.

Lemma stage_started_log (step : string) :
  stage_started (onLog ("Executing step: " +:+ step)) = Some step.
Proof. apply afterPrefix_app. Qed.

Lemma executed_steps_app (tr1 tr2 : list Effect) :
  executed_steps (tr1 ++ tr2) = executed_steps tr1 ++ executed_steps tr2.
Proof. apply omap_app. Qed.

Lemma executed_steps_cons (e : Effect) (tr : list Effect) :
  executed_steps (e :: tr) = option_list (stage_started e) ++ executed_steps tr.
Proof. unfold executed_steps. simpl. by destruct (stage_started e). Qed.

Lemma progress_emitted_app (tr1 tr2 : list Effect) :
  progress_emitted (tr1 ++ tr2) = progress_emitted tr1 ++ progress_emitted tr2.
Proof. apply omap_app. Qed.

Lemma executed_steps_stepCompleted (step : string) :
  executed_steps (stepCompleted step) = [].
Proof.
  unfold stepCompleted.
  repeat (destruct (JS.includes step _)); reflexivity.
Qed.

Lemma progress_emitted_stepCompleted (step : string) :
  progress_emitted (stepCompleted step) = [].
Proof.
  unfold stepCompleted.
  repeat (destruct (JS.includes step _)); reflexivity.
Qed.

(** The part of a trace that [loop_from] writes: one stage start when
    there is a step at [i], none when the loop is over. *)
Lemma executed_steps_loop_from (w : string) (steps : list string) (i : nat) :
  executed_steps (loop_from w steps i).1 = option_list (steps !! i).
Proof.
  unfold loop_from. destruct (steps !! i) as [step|]; [|reflexivity].
  cbv [fst]. rewrite !executed_steps_cons, stage_started_log. done.
Qed.

Lemma progress_emitted_loop_from (w : string) (steps : list string) (i : nat) :
  progress_emitted (loop_from w steps i).1 = [].
Proof. unfold loop_from. by destruct (steps !! i). Qed.

Lemma loop_from_task (w : string) (steps : list string) (i : nat) :
  (loop_from w steps i).2 =
    if decide (i < length steps) then Some (mkTask w steps i) else None.
Proof.
  unfold loop_from. case_decide as Hi.
  - apply lookup_lt_is_Some in Hi as [step ->]. done.
  - rewrite lookup_ge_None_2 by lia. done.
Qed.

Lemma handleStart_effects (w : string) :
  (handleStart w).1 =
    [ setIsRunning true; setProgress 0;
      onLog ("Starting " +:+ w +:+ " workflow") ]
    ++ (loop_from w (getWorkflowSteps w) 0).1.
Proof. unfold handleStart. by destruct (loop_from _ _ _). Qed.

Lemma handleStart_task (w : string) :
  (handleStart w).2 = (loop_from w (getWorkflowSteps w) 0).2.
Proof. unfold handleStart. by destruct (loop_from _ _ _). Qed.

Lemma resume_effects (w : string) (steps : list string) (i : nat)
    (step : string) :
  steps !! i = Some step →
  (resume (mkTask w steps i)).1 =
    [ setProgress (stepProgress i (length steps)) ]
    ++ stepCompleted step ++ (loop_from w steps (i + 1)).1.
Proof. unfold resume. simpl. intros ->. by destruct (loop_from _ _ _). Qed.

Lemma resume_task (w : string) (steps : list string) (i : nat) :
  i < length steps →
  (resume (mkTask w steps i)).2 = (loop_from w steps (i + 1)).2.
Proof.
  intros [step Hs]%lookup_lt_is_Some. unfold resume. simpl. rewrite Hs.
  by destruct (loop_from _ _ _).
Qed.

(** *** A run nobody interrupts *)

(** From an idle system, a click on Start followed by [k] timers, [k] at
    most the number of steps, gives the trace [uninterrupted] and leaves
    one task waiting while steps remain. *)
Lemma run_uninterrupted (sys : System) (k : nat) :
  idle sys →
  k ≤ length (getWorkflowSteps (activeWorkflow sys)) →
  let w := activeWorkflow sys in
  let sys' := run sys (ClickStart :: replicate k TimerFires) in
  trace sys' = trace sys ++ uninterrupted w k
  ∧ ui sys' = foldl apply (ui sys) (uninterrupted w k)
  ∧ activeWorkflow sys' = w
  ∧ timers sys' =
      if decide (k < length (getWorkflowSteps w))
      then [mkTask w (getWorkflowSteps w) k] else [].
Proof.
  intros [Hidle Htimers] Hk w sys'. subst sys'.
  change (k ≤ length (getWorkflowSteps w)) in Hk.
  induction k as [|k IH].
  - unfold run. simpl. rewrite Hidle, Htimers. unfold perform, uninterrupted.
    simpl. rewrite app_nil_r, handleStart_task, loop_from_task. fold w.
    split_and!; try done. by case_decide.
  - destruct (IH ltac:(lia)) as (IHtr & IHui & IHw & IHt).
    rewrite replicate_S_end, app_comm_cons. unfold run in *.
    rewrite foldl_snoc. set (sys' := foldl step sys _) in *.
    simpl. rewrite IHt, decide_True by lia.
    assert (is_Some (getWorkflowSteps w !! k)) as [stepk Hstepk]
      by (apply lookup_lt_is_Some; lia).
    unfold perform. simpl.
    rewrite IHtr, IHui, IHw, resume_task by lia.
    rewrite loop_from_task.
    assert (uninterrupted w (S k) =
            uninterrupted w k ++ (resume (mkTask w (getWorkflowSteps w) k)).1)
      as ->.
    { unfold uninterrupted. rewrite seq_S, fmap_app, concat_app. simpl.
      by rewrite app_nil_r, app_assoc. }
    rewrite foldl_app, app_assoc.
    split_and!; try done.
    replace (k + 1) with (S k) by lia. by repeat case_decide.
Qed.

Lemma executed_steps_resume (w : string) (steps : list string) (j : nat) :
  j < length steps →
  executed_steps (resume (mkTask w steps j)).1 = option_list (steps !! (j + 1)).
Proof.
  intros [step Hs]%lookup_lt_is_Some.
  rewrite (resume_effects _ _ _ _ Hs), !executed_steps_app.
  by rewrite executed_steps_stepCompleted, executed_steps_loop_from.
Qed.

Lemma progress_emitted_resume (w : string) (steps : list string) (j : nat) :
  progress_emitted (resume (mkTask w steps j)).1 =
    [ stepProgress j (length steps) ].
Proof.
  destruct (steps !! j) as [step|] eqn:Hs.
  - rewrite (resume_effects _ _ _ _ Hs), !progress_emitted_app.
    by rewrite progress_emitted_stepCompleted, progress_emitted_loop_from.
  - unfold resume. simpl. by rewrite Hs.
Qed.

(** The stages an uninterrupted run has started after [k] timers: the
    first [k + 1] steps of the table entry. *)
Lemma executed_steps_uninterrupted (w : string) (k : nat) :
  k ≤ length (getWorkflowSteps w) →
  executed_steps (uninterrupted w k) = take (S k) (getWorkflowSteps w).
Proof.
  unfold uninterrupted. induction k as [|k IH]; intros Hk.
  - simpl. rewrite app_nil_r, handleStart_effects, executed_steps_app.
    rewrite executed_steps_loop_from. by destruct (getWorkflowSteps w).
  - rewrite seq_S, fmap_app, concat_app, app_assoc, executed_steps_app.
    rewrite IH by lia. simpl. rewrite app_nil_r.
    rewrite executed_steps_resume by lia.
    replace (k + 1) with (S k) by lia.
    destruct (getWorkflowSteps w !! S k) as [step|] eqn:Hs.
    + by rewrite (take_S_r _ _ _ Hs).
    + simpl. rewrite app_nil_r. apply lookup_ge_None_1 in Hs.
      by rewrite !take_ge by lia.
Qed.

(** The values an uninterrupted run has passed to [setProgress] after [k]
    timers: the 0 of [handleStart], then one value per finished step. *)
Lemma progress_emitted_uninterrupted (w : string) (k : nat) :
  k ≤ length (getWorkflowSteps w) →
  progress_emitted (uninterrupted w k) =
    0%float :: ((λ j, stepProgress j (length (getWorkflowSteps w))) <$> seq 0 k).
Proof.
  unfold uninterrupted. induction k as [|k IH]; intros Hk.
  - simpl. rewrite app_nil_r, handleStart_effects, progress_emitted_app.
    by rewrite progress_emitted_loop_from.
  - rewrite seq_S, !fmap_app, concat_app, app_assoc, progress_emitted_app.
    rewrite IH by lia. simpl. rewrite app_nil_r.
    by rewrite progress_emitted_resume.
Qed.

Lemma getWorkflowSteps_cases (w : string) :
  getWorkflowSteps w ∈
    [ ["Generate Script"; "Create Video"; "Upload to YouTube"];
      ["Generate Script"]; ["Create Video"]; ["Upload to YouTube"];
      ["Generate Script"; "Create Video"];
      ["Create Video"; "Upload to YouTube"]; [] ].
Proof.
  unfold getWorkflowSteps.
  repeat (destruct (String.eqb w _); [set_solver|]). set_solver.
Qed.

(** The state cells follow the trace: [progress] holds the last value
    passed to [setProgress]. *)
Lemma progress_foldl (st : State) (tr : list Effect) :
  progress (foldl apply st tr) =
    default (progress st) (last (progress_emitted tr)).
Proof.
  induction tr as [|e tr IH] using rev_ind; [done|].
  rewrite foldl_snoc, progress_emitted_app.
  destruct e; simpl; rewrite ?app_nil_r; try exact IH.
  by rewrite last_snoc.
Qed.

(** *** C3: a run executes its table entry *)

(** C3. The mode table has six entries; each is a non-empty sublist of
    the three steps Generate Script, Create Video, Upload to YouTube, in
    that order, standing for the stages Script, Video, Upload.  From an
    idle system, choosing a mode, clicking Start and letting one timer
    fire per step starts exactly the steps of the mode's entry, in the
    entry's order, and ends the run: no timer is left and the running flag
    is down. *)
Theorem modes_run_their_table (sys : System) :
  idle sys →
  Forall (λ mode,
      let steps := getWorkflowSteps mode in
      let sys' := run (step sys (SelectWorkflow mode))
                      (ClickStart :: replicate (length steps) TimerFires) in
      executed_steps (trace sys') = executed_steps (trace sys) ++ steps
      ∧ timers sys' = []
      ∧ isRunning (ui sys') = false
      ∧ currentStep (ui sys') = "Completed"
      ∧ steps ≠ []
      ∧ steps `sublist_of`
          ["Generate Script"; "Create Video"; "Upload to YouTube"])
    workflowModes.*1
  ∧ (λ mode, (mode, stage_of <$> getWorkflowSteps mode)) <$> workflowModes.*1
    = [ ("full_auto", [Some Script; Some Video; Some Upload]);
        ("script_only", [Some Script]);
        ("video_only", [Some Video]);
        ("upload_only", [Some Upload]);
        ("script_and_video", [Some Script; Some Video]);
        ("video_and_upload", [Some Video; Some Upload]) ].
Proof.
  intros [Hrun Htimers]. split; [|reflexivity].
  assert (∀ mode, idle (step sys (SelectWorkflow mode))) as Hidle by done.
  change (workflowModes.*1) with
    ["full_auto"; "script_only"; "video_only"; "upload_only";
     "script_and_video"; "video_and_upload"].
  repeat apply Forall_cons_2; [..|apply Forall_nil_2];
    match goal with |- context [SelectWorkflow ?m] =>
      pose proof (run_uninterrupted (step sys (SelectWorkflow m))
                    (length (getWorkflowSteps m)) (Hidle m) (le_n _))
        as (Htr & Hui & _ & Ht)
    end;
    cbv zeta; rewrite Htr, Hui, Ht, executed_steps_app;
    change (activeWorkflow (step sys (SelectWorkflow ?m))) with m;
    rewrite executed_steps_uninterrupted by done;
    (split_and!; [reflexivity|reflexivity|reflexivity|reflexivity|done|]);
    vm_compute;
    repeat first [apply sublist_nil | apply sublist_skip | apply sublist_cons].
Qed.

Lemma modes_run_their_table_witness :
  idle boot
  ∧ executed_steps
      (trace (run (step boot (SelectWorkflow "video_and_upload"))
                  [ClickStart; TimerFires; TimerFires]))
    = ["Create Video"; "Upload to YouTube"].
Proof.
  split; [done|].
  pose proof (modes_run_their_table boot (conj eq_refl eq_refl)) as [H _].
  apply Forall_forall with (x := "video_and_upload") in H; [|set_solver].
  apply H.
Defined.

(** *** C6: the progress percentage *)

(** The percentage after [j] of [m] stages, as the code computes it:
    [(j / m) * 100] in binary64. *)
Lemma stepProgress_percent (j m : nat) :
  stepProgress j m = PrimFloat.mul (PrimFloat.div (JS.num (S j)) (JS.num m)) 100.
Proof. unfold stepProgress. by replace (j + 1) with (S j) by lia. Qed.

(** The modes have one, two or three steps; for these lengths the last
    percentage is exactly 100. *)
Lemma last_percentage (w : string) :
  getWorkflowSteps w ≠ [] →
  let m := length (getWorkflowSteps w) in
  PrimFloat.mul (PrimFloat.div (JS.num m) (JS.num m)) 100 = 100%float.
Proof.
  intros Hne.
  pose proof (getWorkflowSteps_cases w) as Hcases.
  repeat (apply elem_of_cons in Hcases as [->|Hcases]; [reflexivity|]).
  apply list_elem_of_singleton in Hcases. done.
Qed.

(** C6. From an idle system, after a click on Start and [k] timers, that
    is after the k-th of the m stages of the chosen workflow completes (for
    every k from 1 to m), the progress cell holds [(k / m) * 100] as
    binary64 arithmetic computes it, the values passed to [setProgress]
    since the click are the 0 of the start followed by that percentage
    for 1, 2, ..., k, and the percentage for k = m is exactly 100.  This
    does not depend on the run being left alone: whenever the timer of a
    suspended loop fires, in whatever state, the one value the loop passes
    to [setProgress] is the percentage of the step that has just finished. *)
Theorem progress_after_each_stage (sys : System) (k : nat) :
  idle sys →
  1 ≤ k ≤ length (getWorkflowSteps (activeWorkflow sys)) →
  let m := length (getWorkflowSteps (activeWorkflow sys)) in
  let percent (j m : nat) :=
    PrimFloat.mul (PrimFloat.div (JS.num j) (JS.num m)) 100 in
  let sys_k := run sys (ClickStart :: replicate k TimerFires) in
  progress (ui sys_k) = percent k m
  ∧ progress_emitted (trace sys_k) =
      progress_emitted (trace sys) ++ 0%float :: ((λ j, percent j m) <$> seq 1 k)
  ∧ percent m m = 100%float
  ∧ (∀ t : Task,
       progress_emitted (resume t).1 = [ percent (S (i t)) (length (steps t)) ]).
Proof.
  intros Hidle [Hk1 Hkm] m percent sys_k.
  destruct (run_uninterrupted sys k Hidle Hkm) as (Htr & Hui & _ & _).
  fold sys_k in Htr, Hui.
  assert (progress_emitted (uninterrupted (activeWorkflow sys) k)
          = 0%float :: ((λ j, percent j m) <$> seq 1 k)) as Hemit.
  { rewrite progress_emitted_uninterrupted by done. f_equal.
    rewrite <- (fmap_S_seq 0), <- list_fmap_compose.
    apply list_fmap_ext. intros _ j _. apply stepProgress_percent. }
  split_and!.
  - rewrite Hui, progress_foldl, Hemit.
    destruct k as [|k]; [lia|].
    by rewrite seq_S, fmap_app, list_fmap_singleton, app_comm_cons, last_snoc.
  - by rewrite Htr, progress_emitted_app, Hemit.
  - apply last_percentage. intros Hnil. subst m.
    rewrite Hnil in Hkm. simpl in Hkm. lia.
  - intros [w steps j]. simpl.
    by rewrite progress_emitted_resume, stepProgress_percent.
Qed.

Lemma progress_after_each_stage_witness :
  idle boot
  ∧ 1 ≤ 2 ≤ length (getWorkflowSteps (activeWorkflow boot))
  ∧ progress (ui (run boot [ClickStart; TimerFires; TimerFires]))
    = PrimFloat.mul (PrimFloat.div 2 3) 100.
Proof.
  assert (idle boot) as Hidle by done.
  assert (1 ≤ 2 ≤ length (getWorkflowSteps (activeWorkflow boot))) as Hk
    by (vm_compute; lia).
  split; [exact Hidle|]. split; [exact Hk|].
  apply (progress_after_each_stage boot 2 Hidle Hk).
Defined.

(** The values the three possible lengths give, as binary64 numbers.  The
    thirds are the doubles that [1/3 * 100] and [2/3 * 100] round to, not
    the rationals 100/3 and 200/3. *)
Example percentages :
  (λ m, (λ j, stepProgress j m) <$> seq 0 m) <$> [1; 2; 3]
  = [ [100%float]; [50%float; 100%float];
      [0x1.0aaaaaaaaaaaap+5%float; 0x1.0aaaaaaaaaaaap+6%float; 100%float] ].
Proof. reflexivity. Qed.

(** Each of these doubles is within 2^-46 of the rational [100 * j / m]. *)
Example percentages_close :
  forallb (λ m, forallb (λ j, JS.within46 (stepProgress j m) (100 * S j) m)
                        (seq 0 m))
          [1; 2; 3]
  = true.
Proof. reflexivity. Qed.

(** *** C10: the success rate *)

(** A binary64 number above zero is not zero. *)
Lemma positive_nonzero (c : float) :
  PrimFloat.ltb 0 c = true → PrimFloat.eqb c 0 = false.
Proof.
  rewrite FloatAxioms.ltb_spec, FloatAxioms.eqb_spec.
  change (Prim2SF 0) with (S754_zero false).
  by destruct (Prim2SF c) as [[]|[]| |[] m e].
Qed.

(** Evaluating the expression gives the displayed rate, and divides once
    when [videosCreated > 0] and not at all otherwise. *)
Lemma eval_successRate (c u : float) :
  eval c u successRateExpr =
    (successRate c u, if PrimFloat.ltb 0 c then [ (u, c) ] else []).
Proof.
  unfold successRate. cbn [eval successRateExpr].
  by destruct (PrimFloat.ltb 0 c).
Qed.

(** C10. For every pair of counters the displayed success rate is
    [Math.round((videosUploaded / videosCreated) * 100)] when
    [videosCreated > 0] and 0 otherwise, in particular when
    [videosCreated] is 0.  Evaluated in JavaScript's order the expression
    yields that value, and every division it performs has a divisor above
    zero, so none divides by zero; with [videosCreated] at 0 it performs
    none. *)
Theorem successRate_division_safe (videosCreated videosUploaded : float) :
  successRate videosCreated videosUploaded =
    (if PrimFloat.ltb 0 videosCreated
     then JS.Math_round
            (PrimFloat.mul (PrimFloat.div videosUploaded videosCreated) 100)
     else 0%float)
  ∧ successRate 0 videosUploaded = 0%float
  ∧ (eval videosCreated videosUploaded successRateExpr).1 =
      successRate videosCreated videosUploaded
  ∧ Forall (λ d, PrimFloat.ltb 0 d.2 = true ∧ PrimFloat.eqb d.2 0 = false)
      (eval videosCreated videosUploaded successRateExpr).2
  ∧ (eval 0 videosUploaded successRateExpr).2 = [].
Proof.
  rewrite eval_successRate. split_and!; [done|done|done| |done].
  cbn [snd].
  destruct (PrimFloat.ltb 0 videosCreated) eqn:Hpos; [|constructor].
  repeat constructor; simpl; [done|by apply positive_nonzero].
Qed.

(** Some rates.  29 of 200 is 14.5 percent, but [29 / 200 * 100] is the
    double just below 14.5, which rounds to 14. *)
Example successRate_values :
  successRate 0 0 = 0%float
  ∧ successRate 4 3 = 75%float
  ∧ successRate 8 1 = 13%float
  ∧ successRate 3 2 = 67%float
  ∧ successRate 200 29 = 14%float.
Proof. by split_and!. Qed.

(** *** C2 and C7: Stop, Pause and the running loop *)

(** While the flag is up the Start button is disabled: a click on it
    changes nothing. *)
Lemma start_disabled_while_running (sys : System) :
  isRunning (ui sys) = true → step sys ClickStart = sys.
Proof. simpl. by intros ->. Qed.

(** C2 does not hold of the dashboard.  Start, Stop, then the timer of the first
    step: after the log line of the stop the loop goes on and starts the
    second stage. *)
Theorem stop_does_not_cancel :
  let sys := run boot [ClickStart; ClickStop; TimerFires] in
  trace sys =
    [ setIsRunning true; setProgress 0;
      onLog "Starting full_auto workflow";
      setCurrentStep "Generate Script";
      onLog "Executing step: Generate Script";
      setIsRunning false; setProgress 0; setCurrentStep "";
      onLog "Workflow stopped"; toast_error "Workflow stopped";
      setProgress (stepProgress 0 3);
      onLog "Script generation completed";
      setCurrentStep "Create Video";
      onLog "Executing step: Create Video" ]
  ∧ stop_honoured (trace sys) = false
  ∧ timers sys = [ mkTask "full_auto" (getWorkflowSteps "full_auto") 1 ]
  ∧ isRunning (ui sys) = false.
Proof. by split_and!. Qed.

(** C7 does not hold of the dashboard.  Start, Stop, Start: the flag was lowered
    by Stop, so the second click is accepted while the first loop is still
    waiting for its timer.  Two runs are in flight, and the next four
    timers start each stage twice. *)
Theorem runs_overlap_after_stop :
  let sys := run boot [ClickStart; ClickStop; ClickStart] in
  runs_in_flight sys = 2
  ∧ isRunning (ui sys) = true
  ∧ executed_steps (trace (run sys [TimerFires; TimerFires; TimerFires;
                                    TimerFires]))
    = [ "Generate Script"; "Generate Script"; "Create Video"; "Create Video";
        "Upload to YouTube"; "Upload to YouTube" ].
Proof. by split_and!. Qed.

(** The two theorems above are instances of what holds in every state.
    Stop and Pause leave the pending timers alone, and lower the flag that
    guards Start: from a running system, Stop (or Pause) followed by Start
    adds a loop to the ones in flight whenever the chosen workflow has a
    step. *)
Lemma stop_keeps_timers (sys : System) :
  timers (step sys ClickStop) = timers sys
  ∧ timers (step sys ClickPause) = timers sys.
Proof.
  simpl. destruct (isRunning (ui sys)); simpl; by rewrite ?app_nil_r.
Qed.

Lemma interrupt_then_timer_starts_next_stage (sys : System) (ev : Event)
    (w : string) (steps : list string) (j : nat) (rest : list Task)
    (next : string) :
  is_interrupt ev = true →
  isRunning (ui sys) = true →
  timers sys = mkTask w steps j :: rest →
  steps !! (j + 1) = Some next →
  executed_steps (trace (run sys [ev; TimerFires])) =
    executed_steps (trace sys) ++ [next].
Proof.
  intros Hev Hrun Htimers Hnext. unfold run.
  assert (timers (step sys ev) = timers sys
          ∧ executed_steps (trace (step sys ev)) = executed_steps (trace sys))
    as [Hkept Hquiet].
  { destruct ev; try done; simpl; rewrite Hrun; simpl;
      by rewrite app_nil_r, executed_steps_app, app_nil_r. }
  cbn [foldl]. cbn [step]. rewrite Hkept, Htimers. unfold perform.
  cbn [trace]. rewrite executed_steps_app, Hquiet.
  rewrite executed_steps_resume, Hnext; [done|].
  apply lookup_lt_Some in Hnext. lia.
Qed.

Lemma interrupt_then_start_adds_a_run (sys : System) (ev : Event) :
  is_interrupt ev = true →
  isRunning (ui sys) = true →
  getWorkflowSteps (activeWorkflow sys) ≠ [] →
  runs_in_flight (run sys [ev; ClickStart]) = S (runs_in_flight sys).
Proof.
  intros Hev Hrun Hsteps. unfold run, runs_in_flight.
  assert (isRunning (ui (step sys ev)) = false
          ∧ timers (step sys ev) = timers sys
          ∧ activeWorkflow (step sys ev) = activeWorkflow sys)
    as (Hdown & Htimers & Hw).
  { destruct ev; try done; simpl; rewrite Hrun; simpl;
      by rewrite app_nil_r. }
  cbn [foldl]. cbn [step]. rewrite Hdown. unfold perform. cbn [timers].
  rewrite Htimers, Hw, handleStart_task, loop_from_task, length_app.
  destruct (getWorkflowSteps (activeWorkflow sys)) as [|step0 rest];
    [done|].
  rewrite decide_True by (simpl; lia). simpl. lia.
Qed.

(** *** Where mutual exclusion does hold

    As long as nobody clicks Pause or Stop, the running flag says whether
    a loop is in flight, and the guard on Start keeps a second one out. *)

Lemma isRunning_foldl (st : State) (tr : list Effect) :
  isRunning (foldl apply st tr) =
    default (isRunning st) (last (flag_writes tr)).
Proof.
  induction tr as [|e tr IH] using rev_ind; [done|].
  unfold flag_writes in *. rewrite foldl_snoc, omap_app.
  destruct e; simpl; rewrite ?app_nil_r; try exact IH.
  by rewrite last_snoc.
Qed.

Lemma flag_writes_app (tr1 tr2 : list Effect) :
  flag_writes (tr1 ++ tr2) = flag_writes tr1 ++ flag_writes tr2.
Proof. apply omap_app. Qed.

Lemma flag_writes_stepCompleted (step : string) :
  flag_writes (stepCompleted step) = [].
Proof.
  unfold stepCompleted.
  repeat (destruct (JS.includes step _)); reflexivity.
Qed.

Lemma flag_writes_loop_from (w : string) (steps : list string) (i : nat) :
  flag_writes (loop_from w steps i).1 =
    if decide (i < length steps) then [] else [false].
Proof.
  unfold loop_from. case_decide as Hi.
  - apply lookup_lt_is_Some in Hi as [step ->]. done.
  - rewrite lookup_ge_None_2 by lia. done.
Qed.

Lemma exclusive_step (sys : System) (ev : Event) :
  is_interrupt ev = false → exclusive sys → exclusive (step sys ev).
Proof.
  intros Hev [Hwf Hflag]. destruct ev; try done; simpl.
  - (* Start *)
    destruct (isRunning (ui sys)) eqn:Hrun;
      [split; [done|by rewrite Hrun]|].
    apply nil_length_inv in Hflag. rewrite Hflag.
    unfold exclusive, perform. simpl.
    rewrite isRunning_foldl, handleStart_effects, handleStart_task.
    rewrite flag_writes_app, flag_writes_loop_from, loop_from_task.
    case_decide; simpl; [|done].
    split; [|done]. by repeat constructor.
  - (* Reset *)
    unfold exclusive, perform. simpl. by rewrite app_nil_r.
  - (* a timer *)
    destruct (timers sys) as [|[w steps i] rest] eqn:Ht.
    { split; [by rewrite Ht|by rewrite Ht]. }
    apply Forall_cons in Hwf as [Hi Hrest]. unfold wf_task in Hi.
    simpl in Hi, Hflag.
    destruct (isRunning (ui sys)) eqn:Hrun; [|done].
    destruct rest; [|done].
    pose proof Hi as [stepi Hs]%lookup_lt_is_Some.
    unfold exclusive, perform.
    change (ui (mkSystem ?a _ _ _)) with a.
    change (timers (mkSystem _ _ ?a _)) with a.
    rewrite isRunning_foldl, (resume_effects _ _ _ _ Hs), resume_task by done.
    rewrite !flag_writes_app, flag_writes_stepCompleted.
    rewrite flag_writes_loop_from, loop_from_task, Hrun.
    case_decide; simpl; [|done].
    split; [|done]. repeat constructor. unfold wf_task. simpl. lia.
Qed.

(** Without Pause and Stop, at most one run is in flight at any time, and
    the flag is up exactly while one is. *)
Lemma exclusive_without_interrupts (evs : list Event) :
  Forall (λ ev, is_interrupt ev = false) evs →
  exclusive (run boot evs) ∧ runs_in_flight (run boot evs) ≤ 1.
Proof.
  intros Hevs.
  assert (exclusive (run boot evs)) as Hex.
  { induction evs as [|ev evs IH] using rev_ind; [by split|].
    apply Forall_app in Hevs as [Hevs Hev].
    apply Forall_cons in Hev as [Hev _].
    unfold run. rewrite foldl_snoc. apply exclusive_step; auto. }
  split; [done|]. destruct Hex as [_ Hflag]. unfold runs_in_flight.
  rewrite Hflag. destruct (isRunning _); lia.
Qed.

End AutomationDashboardSpec.

(** ** UploadManager *)

Module UploadManagerSpec.
Import React UploadManager.

Lemma trim_truthy (s : string) : JS.truthy s = false ↔ s = "".
Proof. destruct s; simpl; split; congruence. Qed.

(** *** C9: a refused upload changes nothing *)

(** C9. When no video file is selected, or the title is empty once
    trimmed, a call of [handleUpload] shows one error toast and returns:
    every state cell keeps its value (so the history gets no entry, the
    progress and the uploading flag stay as they were, the form is not
    reset), no timer is set and nothing is logged.  A click on the Upload
    button in such a state changes no state cell and sets no timer either. *)
Theorem invalid_upload_changes_nothing (sys : System) (clock : Clock) :
  videoFile (ui sys) = None
  ∨ JS.trim (title (uploadDetails (ui sys))) = "" →
  let sys' := perform sys (timers sys) (handleUpload (ui sys) clock) in
  ui sys' = ui sys
  ∧ timers sys' = timers sys
  ∧ trace sys' =
      trace sys ++
      [ toast_error (if videoFile (ui sys) is Some _
                     then "Please enter a video title"
                     else "Please select a video file first") ]
  ∧ ui (step sys (ClickUpload clock)) = ui sys
  ∧ timers (step sys (ClickUpload clock)) = timers sys.
Proof.
  intros Hbad sys'.
  assert (handleUpload (ui sys) clock =
          ([ toast_error (if videoFile (ui sys) is Some _
                          then "Please enter a video title"
                          else "Please select a video file first") ], None))
    as Hrefused.
  { unfold handleUpload. destruct (videoFile (ui sys)) as [f|]; [|done].
    destruct Hbad as [|Hblank]; [done|].
    apply trim_truthy in Hblank. by rewrite Hblank. }
  assert (ui sys' = ui sys ∧ timers sys' = timers sys) as [Hui Htimers].
  { subst sys'. rewrite Hrefused. unfold perform. simpl.
    by rewrite app_nil_r. }
  split_and!; try done.
  - subst sys'. by rewrite Hrefused.
  - simpl. by destruct (_ || _).
  - simpl. by destruct (_ || _).
Qed.

Lemma invalid_upload_changes_nothing_witness :
  let blank :=
    run boot [ ChooseVideo (Some (mkFile "clip.mp4")); TypeTitle "   " ] in
  let clock := {| now := 0; toLocaleString := ""; toDateString := "" |} in
  JS.trim (title (uploadDetails (ui blank))) = ""
  ∧ uploadedVideos
      (ui (perform blank (timers blank) (handleUpload (ui blank) clock)))
    = uploadedVideos initial.
Proof.
  intros blank clock. split; [reflexivity|].
  pose proof (invalid_upload_changes_nothing blank clock (or_intror eq_refl))
    as [Hui _].
  rewrite Hui. reflexivity.
Defined.

(** *** C1: the history is not searched *)

(** The first segment of an accepted upload. *)
Lemma handleUpload_accepted (st : State) (file : File) (clock : Clock) :
  videoFile st = Some file →
  JS.trim (title (uploadDetails st)) ≠ "" →
  handleUpload st clock =
    ([ setIsUploading true; setUploadProgress 0;
       onLog "Starting YouTube upload...";
       onLog "Upload step: Preparing video file" ],
     Some (mkTask (uploadDetails st) (scheduleSettings st) 0)).
Proof.
  intros Hfile Htitle. unfold handleUpload. rewrite Hfile.
  destruct (JS.truthy _) eqn:Htruthy; [done|].
  by apply trim_truthy in Htruthy.
Qed.

(** The nine timers of an upload whose first segment has run. *)
Lemma timers_complete_upload (st : State) (details : UploadDetails)
    (schedule : ScheduleSettings) (tr : list Effect) (tick : nat → Clock) :
  let sys' :=
    run {| ui := st; timers := [mkTask details schedule 0]; trace := tr |}
        ((λ j, TimerFires (tick j)) <$> seq 0 (length uploadSteps)) in
  ui sys' =
    {| videoFile := None;
       uploadDetails := emptyDetails;
       scheduleSettings := scheduleSettings st;
       isUploading := false;
       uploadProgress := 0;
       uploadedVideos := newVideo details schedule (tick 8) :: uploadedVideos st |}
  ∧ timers sys' = [].
Proof. split; reflexivity. Qed.

(** One whole upload: the click and the nine timers of the simulated
    steps.  The clock is read when the last timer fires. *)
Lemma upload_runs_to_completion (sys : System) (file : File)
    (click : Clock) (tick : nat → Clock) :
  videoFile (ui sys) = Some file →
  JS.trim (title (uploadDetails (ui sys))) ≠ "" →
  isUploading (ui sys) = false →
  timers sys = [] →
  ui (run sys (whole_upload click tick)) =
    {| videoFile := None;
       uploadDetails := emptyDetails;
       scheduleSettings := scheduleSettings (ui sys);
       isUploading := false;
       uploadProgress := 0;
       uploadedVideos :=
         newVideo (uploadDetails (ui sys)) (scheduleSettings (ui sys)) (tick 8)
           :: uploadedVideos (ui sys) |}
  ∧ timers (run sys (whole_upload click tick)) = [].
Proof.
  intros Hfile Htitle Hidle Htimers.
  unfold whole_upload, run.
  change (foldl step sys (?e :: ?evs)) with (foldl step (step sys e) evs).
  assert (step sys (ClickUpload click) =
          perform sys [] (handleUpload (ui sys) click)) as ->.
  { simpl. by rewrite Hfile, Hidle, Htimers. }
  rewrite (handleUpload_accepted _ file) by done.
  unfold perform. cbn [fst snd app option_list].
  exact (timers_complete_upload _ _ _ _ tick).
Qed.

(** C1, as the code has it.  [handleUpload] never looks into the
    history.  From a state with a file selected, a title that is not blank
    and no upload going on, the click and its nine timers put exactly one
    new record in front of the history and keep every earlier record: the
    record has the title of the form, so the number of records with that
    title goes up by one whether or not there was one before. *)
Theorem upload_always_prepends (sys : System) (file : File)
    (click : Clock) (tick : nat → Clock) :
  videoFile (ui sys) = Some file →
  JS.trim (title (uploadDetails (ui sys))) ≠ "" →
  isUploading (ui sys) = false →
  timers sys = [] →
  let sys' := run sys (whole_upload click tick) in
  let t := title (uploadDetails (ui sys)) in
  let record :=
    newVideo (uploadDetails (ui sys)) (scheduleSettings (ui sys)) (tick 8) in
  uploadedVideos (ui sys') = record :: uploadedVideos (ui sys)
  ∧ video_title record = t
  ∧ id record = "vid_" +:+ pretty (now (tick 8))
  ∧ count_title t (uploadedVideos (ui sys')) =
      S (count_title t (uploadedVideos (ui sys)))
  ∧ isUploading (ui sys') = false
  ∧ timers sys' = [].
Proof.
  intros Hfile Htitle Hidle Htimers sys' t record.
  destruct (upload_runs_to_completion sys file click tick
              Hfile Htitle Hidle Htimers) as [Hui Ht].
  fold sys' in Hui, Ht. rewrite Hui, Ht. simpl.
  split_and!; try done.
  unfold count_title. by rewrite filter_cons_True.
Qed.

Lemma upload_always_prepends_witness :
  let ready :=
    run boot [ ChooseVideo (Some (mkFile "tips.mp4"));
               TypeTitle "AI Productivity Tips" ] in
  let clock :=
    {| now := 1705329000000; toLocaleString := "1/15/2024, 4:30:00 PM";
       toDateString := "Mon Jan 15 2024" |} in
  JS.trim (title (uploadDetails (ui ready))) ≠ ""
  ∧ count_title "AI Productivity Tips"
      (uploadedVideos (ui (run ready (whole_upload clock (λ _, clock))))) = 2.
Proof.
  intros ready clock.
  assert (JS.trim (title (uploadDetails (ui ready))) ≠ "") as Htitle
    by (vm_compute; discriminate).
  split; [exact Htitle|].
  pose proof (upload_always_prepends ready (mkFile "tips.mp4") clock
                (λ _, clock) eq_refl Htitle eq_refl eq_refl)
    as (_ & _ & _ & Hcount & _).
  exact Hcount.
Defined.

(** C1 read as an idempotence guard does not hold.  The same file is
    uploaded twice under the same title, a minute apart.  After the first
    upload the title is in the history once; the second upload is not
    skipped and puts a second record with that title in front. *)
Lemma reupload_duplicates :
  let fill := [ ChooseVideo (Some (mkFile "tips.mp4"));
                TypeTitle "Morning tips" ] in
  let first :=
    {| now := 1705329000000; toLocaleString := "1/15/2024, 4:30:00 PM";
       toDateString := "Mon Jan 15 2024" |} in
  let second :=
    {| now := 1705329060000; toLocaleString := "1/15/2024, 4:31:00 PM";
       toDateString := "Mon Jan 15 2024" |} in
  let once := run boot (fill ++ whole_upload first (λ _, first)) in
  let twice := run once (fill ++ whole_upload second (λ _, second)) in
  count_title "Morning tips" (uploadedVideos (ui once)) = 1
  ∧ count_title "Morning tips" (uploadedVideos (ui twice)) = 2
  ∧ uploadedVideos (ui twice) =
      {| id := "vid_1705329060000"; video_title := "Morning tips";
         uploadedAt := "1/15/2024, 4:31:00 PM"; status := scheduled;
         scheduledFor := Some "Mon Jan 15 2024 06:00" |}
        :: uploadedVideos (ui once)
  ∧ video_title <$> uploadedVideos (ui twice) =
      [ "Morning tips"; "Morning tips"; "AI Productivity Tips";
        "Future of Technology" ].
Proof. vm_compute. by split_and!. Qed.

(** The id does not tell uploads apart either: it is the reading of a
    clock that can be set back.  Two uploads that read the same instant
    leave two records that are equal field by field. *)
Example reupload_same_instant :
  let fill := [ ChooseVideo (Some (mkFile "tips.mp4"));
                TypeTitle "Morning tips" ] in
  let clock :=
    {| now := 1705329000000; toLocaleString := "1/15/2024, 4:30:00 PM";
       toDateString := "Mon Jan 15 2024" |} in
  let upload := fill ++ whole_upload clock (λ _, clock) in
  take 2 (uploadedVideos (ui (run boot (upload ++ upload)))) =
    replicate 2
      {| id := "vid_1705329000000"; video_title := "Morning tips";
         uploadedAt := "1/15/2024, 4:30:00 PM"; status := scheduled;
         scheduledFor := Some "Mon Jan 15 2024 06:00" |}.
Proof. vm_compute. reflexivity. Qed.

End UploadManagerSpec.

(** ** RetryPolicy *)

Module RetryPolicySpec.
Import RetryPolicy.

Section RunSpec.
Context {A E : Type}.
Variable operation : nat → A + E.
Variable retryable : E → bool.
Variable maxDelay : N.
Variable jitter : nat → N.
Variable baseDelay : N.

Local Abbreviation attempts := (attempts operation retryable maxDelay jitter baseDelay).
Local Abbreviation Run := (Run operation retryable maxDelay jitter baseDelay).
Local Abbreviation classify := (classify retryable).
Local Abbreviation delay := (delay maxDelay baseDelay).

(** The four ways one round of the loop can go. *)
Lemma attempts_success (remaining attempt : nat) (last : option E) (a : A) :
  operation attempt = inl a →
  attempts (S remaining) attempt last = (Ok a, [Attempt attempt Success]).
Proof. intros Hop. simpl. by rewrite Hop. Qed.

Lemma attempts_fatal (remaining attempt : nat) (last : option E) (e : E) :
  operation attempt = inr e → retryable e = false →
  attempts (S remaining) attempt last =
    (Fatal e, [Attempt attempt FatalFailure]).
Proof. intros Hop Hre. simpl. by rewrite Hop, Hre. Qed.

Lemma attempts_exhausted (attempt : nat) (last : option E) (e : E) :
  operation attempt = inr e → retryable e = true →
  attempts 1 attempt last =
    (Exhausted (Some e), [Attempt attempt RetryableFailure]).
Proof. intros Hop Hre. simpl. by rewrite Hop, Hre. Qed.

Lemma attempts_retry (remaining attempt : nat) (last : option E) (e : E) :
  operation attempt = inr e → retryable e = true →
  attempts (S (S remaining)) attempt last =
    ((attempts (S remaining) (S attempt) (Some e)).1,
     Attempt attempt RetryableFailure
       :: Backoff attempt (delay attempt) (jitter attempt)
       :: (attempts (S remaining) (S attempt) (Some e)).2).
Proof.
  intros Hop Hre.
  change (attempts (S (S remaining)) attempt last) with
    (match operation attempt with
     | inl a => (Ok a, [Attempt attempt Success])
     | inr e =>
         if retryable e then
           let '(res, log) := attempts (S remaining) (S attempt) (Some e) in
           (res,
            Attempt attempt RetryableFailure
              :: Backoff attempt (delay attempt) (jitter attempt) :: log)
         else (Fatal e, [Attempt attempt FatalFailure])
     end).
  rewrite Hop, Hre. by destruct (attempts _ _ _).
Qed.

(** The log of the loop, read three ways: which attempts were made and how
    each was classified, that all but the last were retryable failures, and
    which delay each retry waited for. *)
Lemma attempts_log (remaining attempt : nat) (last : option E) :
  let log := (attempts remaining attempt last).2 in
  let n := length (attempts_of log) in
  n ≤ remaining
  ∧ (0 < remaining → 0 < n)
  ∧ attempts_of log = (λ j, (j, classify (operation j))) <$> seq attempt n
  ∧ Forall (λ j, classify (operation j) = RetryableFailure)
      (seq attempt (n - 1))
  ∧ backoffs_of log = (λ r, (r, delay r)) <$> seq attempt (n - 1).
Proof.
  revert attempt last.
  induction remaining as [|remaining IH]; intros attempt last.
  { simpl. split_and!; [lia|lia|done|constructor|done]. }
  assert (∀ o, classify (operation attempt) = o →
    let log := [Attempt attempt o] in
    let n := length (attempts_of log) in
    n ≤ S remaining
    ∧ (0 < S remaining → 0 < n)
    ∧ attempts_of log = (λ j, (j, classify (operation j))) <$> seq attempt n
    ∧ Forall (λ j, classify (operation j) = RetryableFailure)
        (seq attempt (n - 1))
    ∧ backoffs_of log = (λ r, (r, delay r)) <$> seq attempt (n - 1)) as Hone.
  { intros o Ho. simpl. rewrite Ho.
    split_and!; [lia|lia|done|constructor|done]. }
  destruct (operation attempt) as [a|e] eqn:Hop.
  { rewrite (attempts_success _ _ _ a Hop). by apply Hone. }
  destruct (retryable e) eqn:Hre.
  2: { rewrite (attempts_fatal _ _ _ e Hop Hre). apply Hone.
       simpl. by rewrite Hre. }
  destruct remaining as [|remaining].
  { rewrite (attempts_exhausted _ _ e Hop Hre). apply Hone.
    simpl. by rewrite Hre. }
  rewrite (attempts_retry _ _ _ e Hop Hre).
  destruct (IH (S attempt) (Some e)) as (IHn & IHpos & IHa & IHr & IHb).
  cbv zeta in *. cbn [snd].
  set (log := (attempts (S remaining) (S attempt) (Some e)).2) in *.
  change (attempts_of (?x :: Backoff ?r ?d ?j :: log))
    with ((attempt, RetryableFailure) :: attempts_of log).
  change (backoffs_of (?x :: Backoff ?r ?d ?j :: log))
    with ((r, d) :: backoffs_of log).
  cbn [length].
  set (n := length (attempts_of log)) in *.
  specialize (IHpos ltac:(lia)).
  replace (S n - 1) with (S (n - 1)) by lia.
  split_and!.
  - lia.
  - lia.
  - cbn [seq fmap list_fmap]. rewrite Hop. cbn [RetryPolicy.classify].
    rewrite Hre. by f_equal.
  - cbn [seq]. constructor; [|done].
    rewrite Hop. cbn [RetryPolicy.classify]. by rewrite Hre.
  - cbn [seq fmap list_fmap]. by f_equal.
Qed.

(** What the result says about the last attempt. *)
Lemma attempts_result (remaining attempt : nat) (last : option E) :
  let r := attempts remaining attempt last in
  let n := length (attempts_of r.2) in
  match r.1 with
  | Ok a => operation (attempt + n - 1) = inl a
  | Fatal e => operation (attempt + n - 1) = inr e ∧ retryable e = false
  | Exhausted _ => n = remaining
  end.
Proof.
  revert attempt last.
  induction remaining as [|remaining IH]; intros attempt last; [done|].
  destruct (operation attempt) as [a|e] eqn:Hop.
  { rewrite (attempts_success _ _ _ a Hop). simpl.
    by replace (attempt + 1 - 1) with attempt by lia. }
  destruct (retryable e) eqn:Hre.
  2: { rewrite (attempts_fatal _ _ _ e Hop Hre). simpl.
       by replace (attempt + 1 - 1) with attempt by lia. }
  destruct remaining as [|remaining].
  { by rewrite (attempts_exhausted _ _ e Hop Hre). }
  rewrite (attempts_retry _ _ _ e Hop Hre).
  specialize (IH (S attempt) (Some e)). cbv zeta in *. cbn [fst snd].
  pose proof (attempts_log (S remaining) (S attempt) (Some e))
    as (_ & Hpos & _).
  cbv zeta in Hpos. specialize (Hpos ltac:(lia)).
  set (r := attempts (S remaining) (S attempt) (Some e)) in *.
  change (attempts_of (?x :: Backoff ?b ?d ?j :: r.2))
    with ((attempt, RetryableFailure) :: attempts_of r.2).
  cbn [length]. set (n := length (attempts_of r.2)) in *.
  replace (attempt + S n - 1) with (S attempt + n - 1) by lia.
  destruct r.1; [done|done|lia].
Qed.

(** C4. [Run] with [maxAttempts = k] calls the operation n times, n at
    most k, as attempts 1 to n, each classified once by the injected
    predicate.  Attempts 1 to n - 1 are retryable failures, so an attempt
    classified as fatal is the last one, whatever is left of the budget.
    The r-th retry is preceded by a wait whose delay is
    [baseDelay * 2^(r-1)], capped at [maxDelay].  The result is [Ok] when
    attempt n succeeded, [Fatal] when it failed fatally, and [Exhausted]
    only when all k attempts were made. *)
Theorem Run_bounded (maxAttempts : nat) :
  let res := (Run maxAttempts).1 in
  let log := (Run maxAttempts).2 in
  let n := length (attempts_of log) in
  n ≤ maxAttempts
  ∧ attempts_of log = (λ j, (j, classify (operation j))) <$> seq 1 n
  ∧ Forall (λ j, classify (operation j) = RetryableFailure) (seq 1 (n - 1))
  ∧ (∀ j, j ∈ seq 1 n → classify (operation j) = FatalFailure → j = n)
  ∧ backoffs_of log =
      (λ r, (r, N.min maxDelay (baseDelay * 2 ^ N.of_nat (r - 1))))
        <$> seq 1 (n - 1)
  ∧ match res with
    | Ok a => operation n = inl a
    | Fatal e => operation n = inr e ∧ retryable e = false
    | Exhausted _ => n = maxAttempts
    end.
Proof.
  intros res log n. subst res log. unfold RetryPolicy.Run in *.
  pose proof (attempts_log maxAttempts 1 None) as (Hn & _ & Ha & Hr & Hb).
  pose proof (attempts_result maxAttempts 1 None) as Hres.
  cbv zeta in *. fold n in Hn, Ha, Hr, Hb, Hres.
  split_and!; try done.
  - intros j [Hj1 Hj]%elem_of_seq Hfatal.
    destruct (decide (j = n)) as [|Hne]; [done|].
    rewrite Forall_forall in Hr.
    rewrite (Hr j) in Hfatal; [done|]. apply elem_of_seq. lia.
  - replace (1 + n - 1) with n in Hres by lia. done.
Qed.

End RunSpec.

(** The policy on a service that always times out: with the retry budget
    of the configuration (3) it tries three times and waits 500 and 1000
    before the two retries; with a budget of 6 the waits are capped. *)
Example always_timing_out :
  let Run := Run (A := unit) (λ _, inr "timeout") (λ _, true) 3000 (λ _, 0%N)
                 500 in
  attempts_of (Run (ConfigManager.retryAttempts ConfigManager.config)).2
    = [ (1, RetryableFailure); (2, RetryableFailure); (3, RetryableFailure) ]
  ∧ backoffs_of (Run (ConfigManager.retryAttempts ConfigManager.config)).2
    = [ (1, 500%N); (2, 1000%N) ]
  ∧ backoffs_of (Run 6).2
    = [ (1, 500%N); (2, 1000%N); (3, 2000%N); (4, 3000%N); (5, 3000%N) ].
Proof. by split_and!. Qed.

(** A rate limit on the first call, a rejected credential on the second:
    the policy stops there although three attempts were left. *)
Example fatal_on_second :
  let operation (attempt : nat) : unit + string :=
    if decide (attempt = 1) then inr "rate limit" else inr "bad credential" in
  let retryable (e : string) := bool_decide (e = "rate limit") in
  Run operation retryable 3000 (λ _, 0%N) 500 5
  = (Fatal "bad credential",
     [ Attempt 1 RetryableFailure; Backoff 1 500 0; Attempt 2 FatalFailure ]).
Proof. reflexivity. Qed.


End RetryPolicySpec.

(** ** ElementLocator *)

Module ElementLocatorSpec.
Import ElementLocator.

Section ResolveSpec.
Context {ElementHandle : Type}.
Variable session : nat → string → option ElementHandle.

Local Abbreviation poll := (poll session).
Local Abbreviation try_candidates := (try_candidates session).
Local Abbreviation Resolve := (Resolve session).

(** One candidate: at most [budget] polls; every poll but a last
    successful one came back empty; a miss used the whole budget. *)
Lemma poll_spec (selector : string) (budget t : nat) :
  let r := (poll selector budget t).1 in
  let n := (poll selector budget t).2 in
  n ≤ budget
  ∧ match r with
    | Some h =>
        0 < n ∧ session (t + n - 1) selector = Some h
        ∧ ∀ p, p < n - 1 → session (t + p) selector = None
    | None =>
        n = budget ∧ ∀ p, p < n → session (t + p) selector = None
    end.
Proof.
  revert t. induction budget as [|budget IH]; intros t.
  { simpl. split_and!; [lia|done|lia]. }
  simpl. destruct (session t selector) as [h|] eqn:Hs; simpl.
  { split_and!; [lia|lia| |lia].
    by replace (t + 1 - 1) with t by lia. }
  specialize (IH (S t)). cbv zeta in IH.
  destruct (ElementLocator.poll session selector budget (S t)) as [r n].
  simpl in *. destruct IH as [Hn IH]. split; [lia|].
  destruct r as [h|].
  - destruct IH as (Hpos & Hfound & Hmiss). split_and!; [lia| |].
    + by replace (t + S n - 1) with (S t + n - 1) by lia.
    + intros [|p] Hp; [by rewrite Nat.add_0_r|].
      replace (t + S p) with (S t + p) by lia. apply Hmiss. lia.
  - destruct IH as [-> Hmiss]. split; [done|].
    intros [|p] Hp; [by rewrite Nat.add_0_r|].
    replace (t + S p) with (S t + p) by lia. apply Hmiss. lia.
Qed.

Lemma interactions_cons (c : CandidateCheck) (checks : list CandidateCheck) :
  interactions (c :: checks) = polls c + interactions checks.
Proof. done. Qed.

Lemma interactions_snoc (checks : list CandidateCheck) (c : CandidateCheck) :
  interactions (checks ++ [c]) = interactions checks + polls c.
Proof.
  unfold interactions. rewrite sum_list_with_app. simpl. lia.
Qed.

(** The walk over the candidates.  The candidates checked are a prefix of
    the list; none is polled more often than the timeout allows; every
    poll before a successful one came back empty, at the tick it was made;
    and the result is the handle of the first candidate a poll found, or
    ElementNotFound after all candidates used up their timeout. *)
Lemma try_candidates_spec (selectorCandidates : list string)
    (perCandidateTimeout t : nat) :
  let res := (try_candidates selectorCandidates perCandidateTimeout t).1 in
  let checks := (try_candidates selectorCandidates perCandidateTimeout t).2 in
  candidate <$> checks `prefix_of` selectorCandidates
  ∧ Forall (λ c, polls c ≤ perCandidateTimeout) checks
  ∧ (∀ j c p, checks !! j = Some c →
       p < polls c - (if found c then 1 else 0) →
       session (t + interactions (take j checks) + p) (candidate c) = None)
  ∧ match res with
    | inr h =>
        ∃ misses hit,
          checks = misses ++ [hit]
          ∧ Forall (λ c, found c = false ∧ polls c = perCandidateTimeout) misses
          ∧ found hit = true
          ∧ 0 < polls hit
          ∧ session (t + interactions checks - 1) (candidate hit) = Some h
    | inl e =>
        e = ElementNotFound
        ∧ candidate <$> checks = selectorCandidates
        ∧ Forall (λ c, found c = false ∧ polls c = perCandidateTimeout) checks
    end.
Proof.
  revert t.
  induction selectorCandidates as [|c rest IH]; intros t.
  { simpl. split_and!; try done; apply Forall_nil_2. }
  pose proof (poll_spec c perCandidateTimeout t) as [Hn Hpoll].
  cbn [ElementLocator.try_candidates].
  destruct (ElementLocator.poll session c perCandidateTimeout t) as [[h|] n].
  - (* found *)
    cbn [fst snd] in *. destruct Hpoll as (Hpos & Hfound & Hmiss).
    split_and!.
    + apply prefix_cons, prefix_nil.
    + by repeat constructor.
    + intros [|j] c' p Hj Hp; simplify_eq/=.
      rewrite Nat.add_0_r. apply Hmiss. lia.
    + exists [], {| candidate := c; polls := n; found := true |}.
      split_and!; try done.
      rewrite interactions_cons. simpl.
      by replace (t + (n + 0) - 1) with (t + n - 1) by lia.
  - (* timed out: on to the next candidate *)
    cbn [fst snd] in *. destruct Hpoll as [-> Hmiss].
    specialize (IH (t + perCandidateTimeout)). cbv zeta in IH.
    destruct (ElementLocator.try_candidates session rest perCandidateTimeout
                (t + perCandidateTimeout)) as [res checks].
    cbn [fst snd] in *. destruct IH as (IHpre & IHle & IHmiss & IHres).
    split_and!.
    + rewrite fmap_cons. by apply prefix_cons.
    + by constructor.
    + intros [|j] c' p Hj Hp; simplify_eq/=.
      * rewrite Nat.add_0_r. apply Hmiss. lia.
      * rewrite <- (IHmiss j c' p Hj Hp). f_equal. lia.
    + destruct res as [e|h].
      * destruct IHres as (-> & <- & Hall). split_and!; try done.
        by constructor.
      * destruct IHres as (misses & hit & -> & Hmisses & Hhit & Hpos & Hsome).
        exists ({| candidate := c; polls := perCandidateTimeout;
                   found := false |} :: misses), hit.
        split_and!; try done; [by constructor|].
        rewrite interactions_cons. simpl.
        rewrite <- Hsome. f_equal. lia.
Qed.

(** C5. [Resolve] on a list of n candidates checks at most n of them, and
    the ones it checks are the first ones of the list, in the configured
    order.  Every poll before a successful one came back empty.  When it
    returns a handle, that is the answer of the page for the last candidate
    checked, all candidates before it timed out, and no candidate after it
    was looked at.  When it fails with ElementNotFound the list was not
    empty and every candidate timed out.  On the empty list it fails with
    ConfigurationError and the browser is never asked. *)
Theorem Resolve_first_success (selectorCandidates : list string)
    (perCandidateTimeout t : nat) :
  let res := (Resolve selectorCandidates perCandidateTimeout t).1 in
  let checks := (Resolve selectorCandidates perCandidateTimeout t).2 in
  length checks ≤ length selectorCandidates
  ∧ candidate <$> checks `prefix_of` selectorCandidates
  ∧ (∀ j c p, checks !! j = Some c →
       p < polls c - (if found c then 1 else 0) →
       session (t + interactions (take j checks) + p) (candidate c) = None)
  ∧ match res with
    | inr h =>
        ∃ misses hit,
          checks = misses ++ [hit]
          ∧ Forall (λ c, found c = false ∧ polls c = perCandidateTimeout) misses
          ∧ found hit = true
          ∧ session (t + interactions checks - 1) (candidate hit) = Some h
    | inl ElementNotFound =>
        selectorCandidates ≠ []
        ∧ candidate <$> checks = selectorCandidates
        ∧ Forall (λ c, found c = false ∧ polls c = perCandidateTimeout) checks
    | inl ConfigurationError =>
        selectorCandidates = [] ∧ checks = []
    end
  ∧ Resolve [] perCandidateTimeout t = (inl ConfigurationError, [])
  ∧ interactions (Resolve [] perCandidateTimeout t).2 = 0.
Proof.
  intros res checks. subst res checks.
  destruct selectorCandidates as [|c rest]; [by split_and!|].
  unfold ElementLocator.Resolve.
  pose proof (try_candidates_spec (c :: rest) perCandidateTimeout t)
    as (Hpre & _ & Hmiss & Hres).
  cbv zeta in *.
  destruct (try_candidates (c :: rest) perCandidateTimeout t) as [res checks].
  cbn [fst snd] in *. split_and!; try done.
  - apply prefix_length in Hpre. by rewrite length_fmap in Hpre.
  - destruct res as [e|h].
    + destruct Hres as (-> & Hall & Hnone). by split_and!.
    + destruct Hres as (misses & hit & -> & Hmisses & Hhit & _ & Hsome).
      by exists misses, hit.
Qed.

End ResolveSpec.

(** The scenario of the spec: the generate button is looked for under
    [#generate] and [.generate-btn], and the page has only the second.  The
    first candidate is polled until its timeout, the second is found at
    once. *)
Example generate_button_second_candidate :
  let page (t : nat) (selector : string) :=
    if decide (selector = ".generate-btn") then Some "button" else None in
  Resolve page ["#generate"; ".generate-btn"] 3 0
  = (inr "button",
     [ {| candidate := "#generate"; polls := 3; found := false |};
       {| candidate := ".generate-btn"; polls := 1; found := true |} ]).
Proof. reflexivity. Qed.

(** The same page and the candidate list of the selector table: the third
    candidate, [.ai-generate], is never looked at. *)
Example generate_button_from_table :
  let page (t : nat) (selector : string) :=
    if decide (selector = ".generate-btn") then Some "button" else None in
  candidate <$>
    (Resolve page
       (ConfigManager.generateButton
          (ConfigManager.capcut ConfigManager.selectors))
       3 0).2
  = ["#generate"; ".generate-btn"].
Proof. reflexivity. Qed.

(** A page that never shows any of the candidates, and the empty list. *)
Example nothing_found :
  let page (t : nat) (selector : string) : option string := None in
  (Resolve page ["#title"; ".title-input"] 2 0).1 = inl ElementNotFound
  ∧ interactions (Resolve page ["#title"; ".title-input"] 2 0).2 = 4
  ∧ Resolve page [] 2 0 = (inl ConfigurationError, []).
Proof. by split_and!. Qed.


End ElementLocatorSpec.

(** ** JavaScript strings: reversal, trimming, case, split and join *)

Module JSSpec.

Lemma app_cons (c : ascii) (a b : string) :
  String c a +:+ b = String c (a +:+ b).
Proof. reflexivity. Qed.

Lemma app_nil_r (s : string) : s +:+ "" = s.
Proof. induction s as [|c s IH]; [done|]. by rewrite app_cons, IH. Qed.

Lemma app_assoc (a b c : string) : (a +:+ b) +:+ c = a +:+ (b +:+ c).
Proof. induction a as [|x a IH]; [done|]. by rewrite !app_cons, IH. Qed.

Lemma rev_app_spec (s a : string) :
  String.rev_app s a = String.rev s +:+ a.
Proof.
  revert a. induction s as [|c s IH]; intros a; [done|].
  unfold String.rev. simpl. rewrite (IH (String c a)), (IH (String c "")).
  by rewrite app_assoc.
Qed.

Lemma rev_cons (c : ascii) (s : string) :
  String.rev (String c s) = String.rev s +:+ String c "".
Proof. unfold String.rev at 1. simpl. apply rev_app_spec. Qed.

Lemma rev_app_distr (a b : string) :
  String.rev (a +:+ b) = String.rev b +:+ String.rev a.
Proof.
  induction a as [|c a IH]; [by rewrite app_nil_r|].
  by rewrite app_cons, !rev_cons, IH, app_assoc.
Qed.

Lemma rev_involutive (s : string) : String.rev (String.rev s) = s.
Proof.
  induction s as [|c s IH]; [done|].
  by rewrite rev_cons, rev_app_distr, IH.
Qed.

Lemma trimStart_split (s : string) : ∃ w, s = w +:+ JS.trimStart s.
Proof.
  induction s as [|c s [w IH]]; [by exists ""|]. simpl.
  destruct (JS.isWhiteSpace c); [|by exists ""].
  exists (String c w). by rewrite app_cons, <-IH.
Qed.

Lemma trimStart_solid (s : string) : JSStrings.starts_solid (JS.trimStart s).
Proof.
  induction s as [|c s IH]; [done|]. simpl.
  by destruct (JS.isWhiteSpace c) eqn:Hc.
Qed.

Lemma trimStart_fixed (s : string) : JSStrings.starts_solid s → JS.trimStart s = s.
Proof. destruct s as [|c s]; [done|]. simpl. by intros ->. Qed.

Lemma solid_prefix (a b : string) :
  JSStrings.starts_solid (a +:+ b) → JSStrings.starts_solid a.
Proof. destruct a; [done|]. by rewrite app_cons. Qed.

(** What [trim] returns has nothing left to trim, at either end. *)
Lemma trim_solid (s : string) :
  JSStrings.starts_solid (JS.trim s) ∧ JSStrings.starts_solid (String.rev (JS.trim s)).
Proof.
  unfold JS.trim, JS.trimEnd. rewrite rev_involutive.
  split; [|apply trimStart_solid].
  destruct (trimStart_split (String.rev (JS.trimStart s))) as [w Hw].
  apply (f_equal String.rev) in Hw.
  rewrite rev_involutive, rev_app_distr in Hw.
  apply (solid_prefix _ (String.rev w)). rewrite <-Hw.
  apply trimStart_solid.
Qed.

Lemma trim_fixed (s : string) :
  JSStrings.starts_solid s → JSStrings.starts_solid (String.rev s) → JS.trim s = s.
Proof.
  intros Hs Hr. unfold JS.trim, JS.trimEnd.
  by rewrite (trimStart_fixed s), (trimStart_fixed (String.rev s)),
    rev_involutive.
Qed.

Lemma trim_idemp (s : string) : JS.trim (JS.trim s) = JS.trim s.
Proof. destruct (trim_solid s). by apply trim_fixed. Qed.

Lemma truthy_true (s : string) : JS.truthy s = true ↔ s ≠ "".
Proof. destruct s; simpl; split; congruence. Qed.

End JSSpec.

(** ** UploadManager: invariants of the whole form *)

Module UploadManagerFormSpec.
Import React UploadManager UploadManagerForm.

(** What one step can do to the flag, the timers, the history and the
    count of completed uploads, read off the segment it performs. *)
Lemma completions_app (tr1 tr2 : list Effect) :
  completions (tr1 ++ tr2) = completions tr1 + completions tr2.
Proof. apply sum_list_with_app. Qed.

Lemma perform_form (sys : System) (effects : list Effect) :
  Forall (λ e, form_effect e = true) effects →
  completions effects = 0 →
  let sys' := perform sys (timers sys) (effects, None) in
  isUploading (ui sys') = isUploading (ui sys)
  ∧ timers sys' = timers sys
  ∧ uploadedVideos (ui sys') = uploadedVideos (ui sys)
  ∧ completions (trace sys') = completions (trace sys).
Proof.
  intros Hform Hnone sys'. subst sys'. unfold perform.
  cbn [ui timers trace fst snd].
  rewrite app_nil_r, completions_app, Hnone, Nat.add_0_r.
  split_and!; try done.
  - clear Hnone. generalize (ui sys). induction Hform as [|e effects He _ IH];
      intros st; [done|]. cbn [foldl]. rewrite IH. by destruct e.
  - clear Hnone. generalize (ui sys). induction Hform as [|e effects He _ IH];
      intros st; [done|]. cbn [foldl]. rewrite IH. by destruct e.
Qed.

Lemma step_edits_form (sys : System) (ev : FormEvent) :
  edits_form ev = true →
  isUploading (ui (step sys ev)) = isUploading (ui sys)
  ∧ timers (step sys ev) = timers sys
  ∧ uploadedVideos (ui (step sys ev)) = uploadedVideos (ui sys)
  ∧ completions (trace (step sys ev)) = completions (trace sys).
Proof.
  intros Hev.
  destruct ev as [[file|value|checked|value|clock|clock]|file| |value|value
                  |value|value|value|checked|checked];
    try done; cbn [step UploadManager.step];
    try (apply perform_form; [by repeat constructor|done]).
  - destruct file; (apply perform_form; [by repeat constructor|done]).
  - destruct file; (apply perform_form; [by repeat constructor|done]).
  - destruct (scheduleVideo _); [|done].
    apply perform_form; [by repeat constructor|done].
Qed.

(** A click on Upload: refused by the button, refused by the checks, or
    accepted with the first segment of [handleUpload]. *)
Lemma step_click (sys : System) (clock : Clock) :
  let sys' := step sys (Base (ClickUpload clock)) in
  uploadedVideos (ui sys') = uploadedVideos (ui sys)
  ∧ completions (trace sys') = completions (trace sys)
  ∧ ((isUploading (ui sys') = isUploading (ui sys) ∧ timers sys' = timers sys)
     ∨ (isUploading (ui sys) = false ∧ isUploading (ui sys') = true
        ∧ timers sys' =
            timers sys ++
            [ mkTask (uploadDetails (ui sys)) (scheduleSettings (ui sys)) 0 ])).
Proof.
  cbn [step UploadManager.step].
  destruct (negb _ || isUploading (ui sys)) eqn:Hguard;
    [by split_and!; [..|left]|].
  apply orb_false_elim in Hguard as [_ Hidle].
  assert (∀ message,
    handleUpload (ui sys) clock = ([ toast_error message ], None) →
    let sys' := perform sys (timers sys) (handleUpload (ui sys) clock) in
    uploadedVideos (ui sys') = uploadedVideos (ui sys)
    ∧ completions (trace sys') = completions (trace sys)
    ∧ ((isUploading (ui sys') = isUploading (ui sys)
        ∧ timers sys' = timers sys)
       ∨ (isUploading (ui sys) = false ∧ isUploading (ui sys') = true
          ∧ timers sys' =
              timers sys ++
              [ mkTask (uploadDetails (ui sys))
                       (scheduleSettings (ui sys)) 0 ]))) as Hrefused.
  { intros message ->.
    destruct (perform_form sys [toast_error message])
      as (? & ? & ? & ?); [by repeat constructor|done|].
    split_and!; [done|done|left; by split]. }
  destruct (videoFile (ui sys)) as [file|] eqn:Hfile.
  2: { apply (Hrefused "Please select a video file first").
       unfold handleUpload. by rewrite Hfile. }
  destruct (JS.truthy (JS.trim (title (uploadDetails (ui sys))))) eqn:Htruthy.
  2: { apply (Hrefused "Please enter a video title").
       unfold handleUpload. by rewrite Hfile, Htruthy. }
  assert (handleUpload (ui sys) clock =
          ([ setIsUploading true; setUploadProgress 0;
             onLog "Starting YouTube upload...";
             onLog "Upload step: Preparing video file" ],
           Some (mkTask (uploadDetails (ui sys)) (scheduleSettings (ui sys)) 0)))
    as -> by (unfold handleUpload; by rewrite Hfile, Htruthy).
  unfold perform. cbn [ui timers trace fst snd]. rewrite completions_app.
  split_and!; [done| |by right].
  change (completions [_; _; _; _]) with 0. lia.
Qed.

(** A timer: the loop goes on to its next step, or it ends and puts one
    record in front of the history. *)
Lemma step_timer (sys : System) (t : Task) (rest : list Task) (clock : Clock) :
  timers sys = t :: rest →
  let sys' := step sys (Base (TimerFires clock)) in
  (i t + 1 < length uploadSteps
   ∧ isUploading (ui sys') = isUploading (ui sys)
   ∧ timers sys' = rest ++ [ mkTask (task_details t) (task_schedule t) (i t + 1) ]
   ∧ uploadedVideos (ui sys') = uploadedVideos (ui sys)
   ∧ completions (trace sys') = completions (trace sys))
  ∨ (length uploadSteps ≤ i t + 1
     ∧ isUploading (ui sys') = false
     ∧ timers sys' = rest
     ∧ uploadedVideos (ui sys') =
         newVideo (task_details t) (task_schedule t) clock
           :: uploadedVideos (ui sys)
     ∧ uploadDetails (ui sys') = emptyDetails
     ∧ videoFile (ui sys') = None
     ∧ completions (trace sys') = S (completions (trace sys))).
Proof.
  intros Ht. cbn [step UploadManager.step]. rewrite Ht.
  unfold resume, loop_from.
  destruct (uploadSteps !! (i t + 1)) as [name|] eqn:Hstep.
  - left. apply lookup_lt_Some in Hstep.
    unfold perform. cbn [ui timers trace fst snd]. rewrite completions_app.
    split_and!; try done; cbn [fst app];
      change (completions [_; _]) with 0; lia.
  - right. apply lookup_ge_None_1 in Hstep.
    unfold perform. cbn [ui timers trace fst snd].
    rewrite completions_app, app_nil_r.
    split_and!; try done; cbn [fst app];
      change (completions (_ :: finish _ _ _)) with 1; lia.
Qed.

Lemma one_upload_step (sys : System) (ev : FormEvent) :
  one_upload sys → one_upload (step sys ev).
Proof.
  unfold one_upload. intros Hinv.
  destruct (edits_form ev) eqn:Hev.
  { destruct (step_edits_form sys ev Hev) as (-> & -> & _). done. }
  destruct ev as [[| | | |clock|clock]| | | | | | | | |]; try done.
  - destruct (step_click sys clock) as (_ & _ & [[-> ->]|(Hdown & -> & ->)]);
      [done|].
    rewrite Hdown in Hinv. rewrite Hinv. eexists. split; [done|].
    simpl. lia.
  - destruct (timers sys) as [|t rest] eqn:Ht.
    { replace (step sys (Base (TimerFires clock))) with sys;
        [by rewrite Ht|].
      cbn [step UploadManager.step]. by rewrite Ht. }
    destruct (isUploading (ui sys)) eqn:Hup; [|congruence].
    destruct Hinv as (t' & Heq & Hi). injection Heq as <- ->.
    destruct (step_timer sys t [] clock Ht)
      as [(Hlt & -> & -> & _)|(_ & -> & -> & _)]; [|done].
    rewrite Hup. eexists. split; [done|]. exact Hlt.
Qed.

(** X1. At most one upload is in flight, whatever the user does.  After any
    sequence of events of the component, from its initial state, the
    uploading flag is up exactly when one [handleUpload] call is waiting
    for its timer, and never more than one is. *)
Theorem at_most_one_upload (evs : list FormEvent) :
  let sys := run boot evs in
  one_upload sys
  ∧ length (timers sys) = (if isUploading (ui sys) then 1 else 0).
Proof.
  intros sys. assert (one_upload sys) as Hinv.
  { subst sys. induction evs as [|ev evs IH] using rev_ind; [done|].
    unfold run. rewrite foldl_snoc. by apply one_upload_step. }
  split; [done|]. unfold one_upload in Hinv.
  destruct (isUploading (ui sys)); [|by rewrite Hinv].
  by destruct Hinv as (t & -> & _).
Qed.

Lemma history_step (sys : System) (ev : FormEvent) :
  uploadedVideos (ui sys) `suffix_of` uploadedVideos (ui (step sys ev))
  ∧ length (uploadedVideos (ui (step sys ev))) + completions (trace sys) =
      length (uploadedVideos (ui sys)) + completions (trace (step sys ev))
  ∧ (Forall (λ v, consistent v = true) (uploadedVideos (ui sys)) →
     Forall (λ v, consistent v = true) (uploadedVideos (ui (step sys ev)))).
Proof.
  destruct (edits_form ev) eqn:Hev.
  { destruct (step_edits_form sys ev Hev) as (_ & _ & -> & ->). done. }
  destruct ev as [[| | | |clock|clock]| | | | | | | | |]; try done.
  - destruct (step_click sys clock) as (-> & -> & _). done.
  - destruct (timers sys) as [|t rest] eqn:Ht.
    { cbn [step UploadManager.step]. by rewrite Ht. }
    destruct (step_timer sys t rest clock Ht)
      as [(_ & _ & _ & -> & ->)|(_ & _ & _ & -> & _ & _ & ->)]; [done|].
    split_and!.
    + by apply suffix_cons_r.
    + simpl. lia.
    + intros Hall. constructor; [|done].
      unfold consistent, newVideo. simpl. by destruct (scheduleVideo _).
Qed.

(** X2. The upload history only grows.  Whatever state the component is in
    and whatever happens to it, the records it had stay where they were,
    unchanged, at the end of the history; and the history gains exactly one
    record per upload the log reports as completed. *)
Theorem history_only_grows (sys : System) (evs : list FormEvent) :
  uploadedVideos (ui sys) `suffix_of` uploadedVideos (ui (run sys evs))
  ∧ length (uploadedVideos (ui (run sys evs))) + completions (trace sys) =
      length (uploadedVideos (ui sys)) + completions (trace (run sys evs)).
Proof.
  induction evs as [|ev evs [IHs IHn]] using rev_ind; [done|].
  unfold run in *. rewrite foldl_snoc.
  destruct (history_step (foldl step sys evs) ev) as (Hs & Hn & _).
  split; [by etrans|lia].
Qed.

(** X3. Status and schedule of a record always agree.  After any sequence
    of events from the initial state, every record of the history is
    either scheduled with a publication time or uploaded without one; the
    status processing never occurs. *)
Theorem records_consistent (evs : list FormEvent) :
  Forall (λ v, consistent v = true ∧ status v ≠ processing)
    (uploadedVideos (ui (run boot evs))).
Proof.
  assert (Forall (λ v, consistent v = true) (uploadedVideos (ui (run boot evs))))
    as Hall.
  { induction evs as [|ev evs IH] using rev_ind; [by repeat constructor|].
    unfold run in *. rewrite foldl_snoc. by apply history_step. }
  eapply Forall_impl; [exact Hall|].
  intros v Hv. split; [done|]. unfold consistent in Hv.
  by destruct (status v).
Qed.

Lemma timer_count_snoc (evs : list FormEvent) (ev : FormEvent) :
  timer_count (evs ++ [ev]) = timer_count evs + (if is_timer ev then 1 else 0).
Proof.
  unfold timer_count. rewrite filter_app, length_app. f_equal.
  rewrite filter_cons. by destruct (is_timer ev).
Qed.

(** While an upload waits for its timers, nothing the user does reaches
    it: the loop keeps the details and settings it captured, and counts
    the timers. *)
Lemma upload_in_progress (sys : System) (details : UploadDetails)
    (schedule : ScheduleSettings) (evs : list FormEvent) :
  isUploading (ui sys) = true →
  timers sys = [ mkTask details schedule 0 ] →
  timer_count evs < length uploadSteps →
  isUploading (ui (run sys evs)) = true
  ∧ timers (run sys evs) = [ mkTask details schedule (timer_count evs) ]
  ∧ uploadedVideos (ui (run sys evs)) = uploadedVideos (ui sys).
Proof.
  intros Hup Htimers.
  induction evs as [|ev evs IH] using rev_ind; intros Hcount; [done|].
  rewrite timer_count_snoc in *. unfold run in *. rewrite foldl_snoc.
  destruct IH as (IHup & IHt & IHh); [lia|].
  set (sys' := foldl step sys evs) in *.
  destruct (edits_form ev) eqn:Hev.
  { destruct (step_edits_form sys' ev Hev) as (-> & -> & -> & _).
    destruct ev as [[]| | | | | | | | |]; try done;
      simpl; by rewrite Nat.add_0_r. }
  destruct ev as [[| | | |clock|clock]| | | | | | | | |]; try done.
  - destruct (step_click sys' clock) as (-> & _ & [[-> ->]|(Hdown & _)]);
      [|congruence].
    simpl. by rewrite Nat.add_0_r.
  - destruct (step_timer sys' _ [] clock IHt)
      as [(_ & -> & -> & -> & _)|(Hge & _)]; [done|].
    simpl in Hge, Hcount. lia.
Qed.

(** X4. An upload uses what the form held when Upload was clicked.  From a
    state with a file, a title that is not blank and no upload going on,
    click Upload and let anything happen until the ninth timer: edits of
    any field, another file, further clicks on Upload.  The record that is
    put in front of the history has the title and the schedule settings of
    the moment of the click, and every earlier record is kept.  When the
    upload ends the form is reset, so whatever was typed or chosen in the
    meantime is gone. *)
Theorem upload_uses_form_at_click (sys : System) (file : File)
    (click last : Clock) (evs : list FormEvent) :
  videoFile (ui sys) = Some file →
  JS.trim (title (uploadDetails (ui sys))) ≠ "" →
  isUploading (ui sys) = false →
  timers sys = [] →
  timer_count evs = 8 →
  let sys' :=
    run sys (Base (ClickUpload click) :: evs ++ [ Base (TimerFires last) ]) in
  uploadedVideos (ui sys') =
    newVideo (uploadDetails (ui sys)) (scheduleSettings (ui sys)) last
      :: uploadedVideos (ui sys)
  ∧ uploadDetails (ui sys') = emptyDetails
  ∧ videoFile (ui sys') = None
  ∧ isUploading (ui sys') = false
  ∧ timers sys' = [].
Proof.
  intros Hfile Htitle Hidle Htimers Hcount sys'. subst sys'.
  unfold run. rewrite app_comm_cons, foldl_snoc. cbn [foldl].
  set (sys0 := step sys (Base (ClickUpload click))).
  assert (sys0 = perform sys [] (handleUpload (ui sys) click)) as Hsys0.
  { subst sys0. cbn [step UploadManager.step].
    by rewrite Hfile, Hidle, Htimers. }
  rewrite (UploadManagerSpec.handleUpload_accepted _ file) in Hsys0 by done.
  destruct (upload_in_progress sys0 (uploadDetails (ui sys))
              (scheduleSettings (ui sys)) evs) as (Hup & Ht & Hh).
  { by rewrite Hsys0. }
  { by rewrite Hsys0. }
  { rewrite Hcount. simpl. lia. }
  unfold run in *. rewrite Hcount in Ht.
  destruct (step_timer (foldl step sys0 evs) _ [] last Ht)
    as [(Hlt & _)|(_ & Hdown & Hnone & Hhist & Hform & Hnofile & _)].
  { simpl in Hlt. lia. }
  split_and!; try assumption.
  rewrite Hhist, Hh, Hsys0. reflexivity.
Qed.

Lemma upload_uses_form_at_click_witness :
  let ready :=
    run boot [ Base (ChooseVideo (Some (mkFile "tips.mp4")));
               Base (TypeTitle "Morning tips") ] in
  let clock :=
    {| now := 1705329000000; toLocaleString := "1/15/2024, 4:30:00 PM";
       toDateString := "Mon Jan 15 2024" |} in
  let meanwhile :=
    [ Base (TimerFires clock); Base (TypeTitle "Evening tips");
      Base (TimerFires clock); Base (SwitchSchedule false);
      Base (TimerFires clock); Base (ClickUpload clock);
      Base (TimerFires clock); TypeTags "late";
      Base (TimerFires clock); Base (ChooseVideo (Some (mkFile "other.mp4")));
      Base (TimerFires clock); Base (TimerFires clock);
      Base (TimerFires clock) ] in
  JS.trim (title (uploadDetails (ui ready))) ≠ ""
  ∧ timer_count meanwhile = 8
  ∧ video_title <$>
      uploadedVideos
        (ui (run ready (Base (ClickUpload clock)
                          :: meanwhile ++ [ Base (TimerFires clock) ])))
    = [ "Morning tips"; "AI Productivity Tips"; "Future of Technology" ].
Proof.
  intros ready clock meanwhile.
  assert (JS.trim (title (uploadDetails (ui ready))) ≠ "") as Htitle
    by (vm_compute; discriminate).
  assert (timer_count meanwhile = 8) as Hcount by reflexivity.
  split; [exact Htitle|]. split; [exact Hcount|].
  pose proof (upload_uses_form_at_click ready (mkFile "tips.mp4") clock clock
                meanwhile eq_refl Htitle eq_refl eq_refl Hcount) as (Hh & _).
  rewrite Hh. reflexivity.
Defined.

End UploadManagerFormSpec.

(** ** ScriptGenerator: what the keyword list holds, and the generation *)

Module ScriptGeneratorPanelSpec.
Import ScriptGenerator.

(** X5. Every keyword in the list is non-empty and has no white space at
    either end, whatever was typed, added and removed: the list holds what
    [trim] returned, and only when that was not empty. *)
Theorem keywords_are_trimmed (evs : list Event) :
  Forall (λ k, k ≠ "" ∧ JS.trim k = k) (keywords (run evs)).
Proof.
  induction evs as [|ev evs IH] using rev_ind; [constructor|].
  rewrite ScriptGeneratorSpec.run_snoc.
  destruct ev as [text| |keyword]; simpl.
  - done.
  - rewrite ScriptGeneratorSpec.handleAddKeyword_spec.
    case_decide as Hguard; [done|]. simpl.
    apply Forall_app. split; [done|]. constructor; [|done].
    split; [tauto|apply JSSpec.trim_idemp].
  - apply Forall_forall. intros k [_ Hk]%list_elem_of_filter.
    by eapply Forall_forall in IH.
Qed.

(** X6. Adding a keyword and then clicking its badge gives the list back as
    it was, provided the keyword was not in the list before. *)
Theorem add_then_remove (st : State) :
  JS.trim (newKeyword st) ∉ keywords st →
  keywords
    (foldl step st [ AddKeyword; RemoveKeyword (JS.trim (newKeyword st)) ])
  = keywords st.
Proof.
  intros Hnew. simpl. rewrite ScriptGeneratorSpec.handleAddKeyword_spec.
  case_decide as Hguard; simpl.
  - apply ScriptGeneratorSpec.filter_all. by intros x Hx ->.
  - rewrite filter_app, filter_cons_False, filter_nil, app_nil_r
      by (by intros ?).
    apply ScriptGeneratorSpec.filter_all. by intros x Hx ->.
Qed.

Lemma add_then_remove_witness :
  (JS.trim (newKeyword (mkState [ "ai"; "tips" ] "  viral "))
     ∉ [ "ai"; "tips" ])
  ∧ keywords
      (foldl step (mkState [ "ai"; "tips" ] "  viral ")
         [ AddKeyword; RemoveKeyword "viral" ])
    = [ "ai"; "tips" ].
Proof.
  assert (JS.trim (newKeyword (mkState [ "ai"; "tips" ] "  viral "))
            ∉ [ "ai"; "tips" ]) as Hnew
    by compute_done.
  split; [exact Hnew|].
  exact (add_then_remove (mkState [ "ai"; "tips" ] "  viral ") Hnew).
Defined.

Lemma filter_out_one (k : string) (l : list string) :
  NoDup l → k ∈ l → S (length (filter (λ x, x ≠ k) l)) = length l.
Proof.
  induction 1 as [|x l Hx ND IH]; intros Hk; [by apply elem_of_nil in Hk|].
  destruct (decide (x = k)) as [->|Hne].
  - rewrite filter_cons_False by (by intros ?). simpl. f_equal.
    f_equal. apply ScriptGeneratorSpec.filter_all. by intros y Hy ->.
  - rewrite filter_cons_True by done. simpl. f_equal. apply IH.
    apply elem_of_cons in Hk as [->|]; done.
Qed.

(** X7. A click on the badge of a keyword removes that keyword and nothing
    else: in every state the widget can reach, the list afterwards does not
    hold the keyword, is one entry shorter, and keeps the other keywords in
    the order they had. *)
Theorem remove_takes_one (evs : list Event) (keyword : string) :
  keyword ∈ keywords (run evs) →
  let after := keywords (step (run evs) (RemoveKeyword keyword)) in
  (keyword ∉ after)
  ∧ S (length after) = length (keywords (run evs))
  ∧ after `sublist_of` keywords (run evs)
  ∧ ∀ k, k ≠ keyword → k ∈ keywords (run evs) → k ∈ after.
Proof.
  intros Hin after. subst after. simpl. split_and!.
  - intros [Hne _]%list_elem_of_filter. by apply Hne.
  - apply filter_out_one; [apply ScriptGeneratorSpec.run_NoDup|done].
  - apply sublist_filter.
  - intros k Hne Hk. by apply list_elem_of_filter.
Qed.

Lemma remove_takes_one_witness :
  "b" ∈ keywords (run [ TypeKeyword "a"; AddKeyword; TypeKeyword "b";
                        AddKeyword; TypeKeyword "c"; AddKeyword ])
  ∧ ("b" ∉ keywords (run [ TypeKeyword "a"; AddKeyword; TypeKeyword "b";
                           AddKeyword; TypeKeyword "c"; AddKeyword;
                           RemoveKeyword "b" ]))
  ∧ S (length (keywords (run [ TypeKeyword "a"; AddKeyword; TypeKeyword "b";
                               AddKeyword; TypeKeyword "c"; AddKeyword;
                               RemoveKeyword "b" ]))) = 3.
Proof.
  assert ("b" ∈ keywords (run [ TypeKeyword "a"; AddKeyword; TypeKeyword "b";
                                AddKeyword; TypeKeyword "c"; AddKeyword ]))
    as Hin by compute_done.
  split; [exact Hin|].
  destruct (remove_takes_one _ "b" Hin) as (Hout & Hlen & _).
  split; [exact Hout|exact Hlen].
Defined.

End ScriptGeneratorPanelSpec.

Module ScriptGenerationSpec.
Import ScriptGeneratorPanel.

Lemma run_snoc_event (sys : System) (evs : list Event) (ev : Event) :
  run sys (evs ++ [ev]) = step (run sys evs) ev.
Proof. apply foldl_snoc. Qed.

(** An event other than a click on Generate and a timer leaves the flag
    and the pending timers alone. *)
Lemma step_edits (sys : System) (ev : Event) :
  edits ev = true →
  isGenerating (ui (step sys ev)) = isGenerating (ui sys)
  ∧ timers (step sys ev) = timers sys.
Proof.
  intros Hev.
  destruct ev as [value|value|value|value|kev|index| |value| |now| ];
    try done; simpl.
  1-4: by rewrite app_nil_r.
  - by destruct (samplePrompts !! index); simpl; rewrite ?app_nil_r.
  - by destruct (JS.truthy _); simpl; rewrite ?app_nil_r.
  - by destruct (JS.truthy _); simpl; rewrite ?app_nil_r.
  - by destruct (JS.truthy _); simpl; rewrite ?app_nil_r.
Qed.

(** The two outcomes of [handleGenerate]. *)
Lemma handleGenerate_cases (st : State) :
  (JS.trim (prompt st) = "" ∧ JS.trim (topic st) = ""
   ∧ handleGenerate st =
       ([ toast_error "Please provide a prompt or topic" ], None))
  ∨ (has_subject st
     ∧ handleGenerate st =
         ([ setIsGenerating true; onLog "Starting script generation..." ],
          Some {| render := st |})).
Proof.
  unfold handleGenerate, has_subject.
  destruct (JS.truthy (JS.trim (prompt st))) eqn:Hp;
    destruct (JS.truthy (JS.trim (topic st))) eqn:Ht; simpl;
    rewrite ?JSSpec.truthy_true in *;
    rewrite ?ScriptGeneratorSpec.truthy_false in *; auto.
Qed.

Lemma one_generation_step (sys : System) (ev : Event) :
  one_generation sys → one_generation (step sys ev).
Proof.
  unfold one_generation. intros Hinv.
  destruct (edits ev) eqn:Hev.
  { destruct (step_edits sys ev Hev) as [-> ->]. exact Hinv. }
  destruct ev; try done; simpl.
  - (* Generate *)
    destruct (isGenerating (ui sys)) eqn:Hgen; [by rewrite Hgen|].
    rewrite Hinv.
    destruct (handleGenerate_cases (ui sys)) as [(_ & _ & ->)|(Hs & ->)];
      simpl; [by rewrite Hgen|by eexists].
  - (* the timer *)
    destruct (timers sys) as [|t rest] eqn:Ht; [by rewrite Ht|].
    destruct (isGenerating (ui sys)); [|done].
    destruct Hinv as (t' & [= -> ->] & _). done.
Qed.

(** X8. At most one generation is in flight, and only for a form that had
    a prompt or a topic.  In every state the component can reach, the
    generating flag is up exactly when one [handleGenerate] call waits for
    its timer, and that call was made with a prompt or a topic that is not
    blank; with the flag down no call waits.  A form with neither never
    starts a generation. *)
Theorem generation_in_flight (evs : list Event) :
  let sys := run boot evs in
  one_generation sys
  ∧ Datatypes.length (timers sys) = (if isGenerating (ui sys) then 1 else 0).
Proof.
  assert (one_generation (run boot evs)) as Hinv.
  { induction evs as [|ev evs IH] using rev_ind; [done|].
    rewrite run_snoc_event. by apply one_generation_step. }
  split; [exact Hinv|]. unfold one_generation in Hinv.
  destruct (isGenerating _); [by destruct Hinv as (t & -> & _)|].
  by rewrite Hinv.
Qed.

(** While a generation waits for its timer, nothing the user does
    reaches it. *)
Lemma generation_waits (sys : System) (t : Task) (evs : list Event) :
  isGenerating (ui sys) = true →
  timers sys = [ t ] →
  Forall (λ ev, is_timer ev = false) evs →
  isGenerating (ui (run sys evs)) = true ∧ timers (run sys evs) = [ t ].
Proof.
  intros Hgen Ht.
  induction evs as [|ev evs IH] using rev_ind; intros Hevs; [done|].
  apply Forall_app in Hevs as [Hevs [Hev _]%Forall_cons].
  destruct (IH Hevs) as [IHgen IHt]. rewrite run_snoc_event.
  destruct (edits ev) eqn:Hedits.
  { destruct (step_edits (run sys evs) ev Hedits) as [-> ->]. done. }
  destruct ev; try done. simpl. by rewrite IHgen.
Qed.

(** X9. The script is written from what the form held when Generate was
    clicked.  From a state with a prompt or a topic and no generation going
    on, click Generate and let anything happen before the timer fires:
    edits of the topic, the prompt, the tone, the length and the keywords, a
    sample prompt, edits of the previous script, Copy, Download, more clicks
    on Generate.  When the timer fires, the script is the template filled
    with the topic, prompt, keywords, tone and length of the moment of the
    click, and it replaces whatever the script cell held. *)
Theorem script_uses_form_at_click (sys : System) (evs : list Event) :
  has_subject (ui sys) →
  isGenerating (ui sys) = false →
  timers sys = [] →
  Forall (λ ev, is_timer ev = false) evs →
  let sys' := run sys (ClickGenerate :: evs ++ [ TimerFires ]) in
  generatedScript (ui sys') = sampleScript (ui sys)
  ∧ isGenerating (ui sys') = false
  ∧ timers sys' = [].
Proof.
  intros Hsubject Hidle Htimers Hevs sys'. subst sys'.
  rewrite app_comm_cons, run_snoc_event.
  change (run sys (ClickGenerate :: evs))
    with (run (step sys ClickGenerate) evs).
  set (sys0 := step sys ClickGenerate).
  assert (isGenerating (ui sys0) = true
          ∧ timers sys0 = [ {| render := ui sys |} ]) as [Hup Ht].
  { subst sys0. simpl. rewrite Hidle, Htimers.
    destruct (handleGenerate_cases (ui sys)) as [(Hp & Htopic & _)|(_ & ->)];
      [|done].
    by destruct Hsubject. }
  destruct (generation_waits sys0 _ evs Hup Ht Hevs) as [_ Ht'].
  cbn [step]. rewrite Ht'. by split_and!.
Qed.

Lemma script_uses_form_at_click_witness :
  let drafted :=
    run boot [ TypeTopic "sleep";
               Keyword (ScriptGenerator.TypeKeyword " rest ");
               Keyword ScriptGenerator.AddKeyword; ChooseTone "casual" ] in
  let meanwhile :=
    [ TypeTopic "coffee"; ChooseTone "humorous"; ClickGenerate;
      Keyword (ScriptGenerator.RemoveKeyword "rest"); ClickSample 1 ] in
  has_subject (ui drafted)
  ∧ Forall (λ ev, is_timer ev = false) meanwhile
  ∧ JSStrings.split JSStrings.LF
      (generatedScript
         (ui (run drafted (ClickGenerate :: meanwhile ++ [ TimerFires ]))))
    !! 0 = Some "# sleep"
  ∧ topic (ui (run drafted (ClickGenerate :: meanwhile ++ [ TimerFires ])))
    = "coffee".
Proof.
  intros drafted meanwhile.
  assert (has_subject (ui drafted)) as Hsubject
    by (right; vm_compute; discriminate).
  assert (Forall (λ ev, is_timer ev = false) meanwhile) as Hevs
    by (by repeat constructor).
  split; [exact Hsubject|]. split; [exact Hevs|].
  pose proof (script_uses_form_at_click drafted meanwhile Hsubject eq_refl
                eq_refl Hevs) as (Hscript & _).
  rewrite Hscript. split; reflexivity.
Defined.

End ScriptGenerationSpec.

(** ** ConfigManager: the selector text areas *)

Module ConfigManagerFormSpec.
Import ConfigManager ConfigManagerForm.

Lemma split_nonempty (sep : ascii) (s : string) :
  ∃ piece pieces, JSStrings.split sep s = piece :: pieces.
Proof.
  induction s as [|c s (p & ps & IH)]; [by eexists _, _|]. simpl.
  destruct (Ascii.eqb c sep); [by eexists _, _|].
  rewrite IH. by eexists _, _.
Qed.

(** The pieces of a split do not contain the separator. *)
Lemma split_pieces (sep : ascii) (s : string) :
  Forall (λ piece, JSStrings.has sep piece = false) (JSStrings.split sep s).
Proof.
  induction s as [|c s IH]; [by repeat constructor|]. simpl.
  destruct (Ascii.eqb c sep) eqn:Hc; [by constructor|].
  destruct (JSStrings.split sep s) as [|p ps].
  { constructor; [|done]. simpl. by rewrite Hc. }
  apply Forall_cons in IH as [Hp Hps]. constructor; [|done].
  simpl. by rewrite Hc.
Qed.

Lemma split_without_sep (sep : ascii) (s : string) :
  JSStrings.has sep s = false → JSStrings.split sep s = [ s ].
Proof.
  induction s as [|c s IH]; [done|]. simpl.
  intros [Hc Hs]%orb_false_elim. by rewrite Hc, IH.
Qed.

Lemma split_app_sep (sep : ascii) (s rest : string) :
  JSStrings.has sep s = false →
  JSStrings.split sep (s +:+ String sep rest) = s :: JSStrings.split sep rest.
Proof.
  induction s as [|c s IH]; simpl.
  - intros _. by rewrite Ascii.eqb_refl.
  - intros [Hc Hs]%orb_false_elim.
    by rewrite ?JSSpec.app_cons, Hc, IH.
Qed.

Lemma split_sep_at_end (sep : ascii) (s : string) :
  JSStrings.split sep (s +:+ String sep "")
  = JSStrings.split sep s ++ [ "" ].
Proof.
  induction s as [|c s IH]; simpl.
  - by rewrite Ascii.eqb_refl.
  - rewrite ?JSSpec.app_cons. destruct (Ascii.eqb c sep); rewrite IH; [done|].
    by destruct (split_nonempty sep s) as (p & ps & ->).
Qed.

(** Splitting undoes joining, for a list that is not empty and whose
    entries do not contain the separator. *)
Lemma split_join (sep : ascii) (l : list string) :
  l ≠ [] →
  Forall (λ s, JSStrings.has sep s = false) l →
  JSStrings.split sep (JSStrings.join (String sep "") l) = l.
Proof.
  intros Hne Hl. induction Hl as [|s l Hs Hl IH]; [done|].
  destruct l as [|s' l]; [by apply split_without_sep|].
  change (JSStrings.join (String sep "") (s :: s' :: l))
    with (s +:+ String sep (JSStrings.join (String sep "") (s' :: l))).
  by rewrite split_app_sep, IH.
Qed.

Lemma filter_one_line (l : list string) :
  Forall one_line l → filter (λ s, JS.truthy (JS.trim s) = true) l = l.
Proof.
  intros Hl. apply ScriptGeneratorSpec.filter_all. intros s Hs.
  by eapply Forall_forall in Hl as [? _].
Qed.

(** The text shown for the list of a reachable state parses back to the
    list. *)
Lemma parse_shown (l : list string) :
  Forall one_line l → parseCandidates (shown l) = l.
Proof.
  intros Hl. unfold parseCandidates, shown.
  destruct l as [|s l]; [done|].
  rewrite split_join; [by apply filter_one_line|done|].
  eapply Forall_impl; [exact Hl|]. by intros ? [_ ?].
Qed.

(** X10. A text area of the Selectors tab stores what it shows: a list of
    selectors, each on a line of its own and none of them blank, is read
    back unchanged from the text the area displays for it.  This includes
    the empty list, which is displayed as the empty text. *)
Theorem shown_candidates_parse_back (l : list string) :
  Forall one_line l → parseCandidates (shown l) = l.
Proof.
  intros Hl. unfold parseCandidates, shown.
  destruct l as [|s l]; [done|].
  assert (Forall (λ s, JSStrings.has JSStrings.LF s = false) (s :: l))
    as Hlines by (eapply Forall_impl; [exact Hl|]; by intros ? [_ ?]).
  rewrite split_join by done.
  by apply filter_one_line.
Qed.

Lemma shown_candidates_parse_back_witness :
  Forall one_line (loginButton (capcut selectors))
  ∧ parseCandidates (shown (loginButton (capcut selectors)))
    = loginButton (capcut selectors).
Proof.
  assert (Forall one_line (loginButton (capcut selectors))) as Hl
    by (by repeat constructor).
  split; [exact Hl|]. exact (shown_candidates_parse_back _ Hl).
Defined.

Lemma parseCandidates_one_line (value : string) :
  Forall one_line (parseCandidates value).
Proof.
  unfold parseCandidates. apply Forall_forall.
  intros s [Hs Hin]%list_elem_of_filter. split; [done|].
  by eapply Forall_forall in Hin; [|apply split_pieces].
Qed.

(** In every state the tab can reach, the four lists with a text area
    hold one-line selectors. *)
Lemma run_one_line (evs : list Event) (area : Area) :
  Forall one_line (candidates area (run evs)).
Proof.
  induction evs as [|ev evs IH] using rev_ind;
    [by destruct area; repeat constructor|].
  unfold run in *. rewrite foldl_snoc.
  destruct area, ev; simpl; first [ apply parseCandidates_one_line | exact IH ].
Qed.

(** X11. A line break typed at the end of a selector text area is lost.
    In every state the tab can reach, and for each of the four areas, the
    text of the area followed by a line feed is stored as the list the area
    already held, so the state, and with it the text displayed, stays as it
    was: the new line does not appear. *)
Theorem line_break_at_end_is_dropped (evs : list Event) (area : Area) :
  let s := run evs in
  step s (type_into area (shown (candidates area s) +:+ JSStrings.NL)) = s.
Proof.
  intros s.
  assert (parseCandidates (shown (candidates area s) +:+ JSStrings.NL)
          = candidates area s) as Hparse.
  { pose proof (run_one_line evs area) as Hl. fold s in Hl.
    rewrite <-(parse_shown _ Hl) at 2.
    unfold parseCandidates, JSStrings.NL.
    rewrite split_sep_at_end, filter_app, filter_cons_False, filter_nil,
      app_nil_r; done. }
  destruct area; simpl in *; rewrite Hparse;
    by destruct s as [[] []].
Qed.

(** X12. The selector lists never hold a blank entry or an entry with a
    line feed, whatever is typed into the text areas; the two lists without
    a text area keep the values of the table. *)
Theorem selectors_stay_one_line (evs : list Event) :
  let s := run evs in
  (∀ area, Forall one_line (candidates area s))
  ∧ generateButton (capcut s) = generateButton (capcut selectors)
  ∧ descriptionInput (youtube s) = descriptionInput (youtube selectors).
Proof.
  intros s. split; [intros area; apply run_one_line|]. subst s.
  induction evs as [|ev evs IH] using rev_ind; [done|].
  unfold run in *. rewrite foldl_snoc. by destruct ev.
Qed.

End ConfigManagerFormSpec.

(** ** AutomationDashboard: the cells over all event sequences *)

Module AutomationDashboardCellsSpec.
Import React AutomationDashboard AutomationDashboardCells.
Import AutomationDashboardSpec.

Lemma run_snoc_click (sys : System) (evs : list Event) (ev : Event) :
  run sys (evs ++ [ev]) = step (run sys evs) ev.
Proof. apply foldl_snoc. Qed.

Lemma percentages_shown_values :
  percentages_shown
  = [ 0%float; 100%float; 50%float; 100%float;
      0x1.0aaaaaaaaaaaap+5%float; 0x1.0aaaaaaaaaaaap+6%float; 100%float ].
Proof. reflexivity. Qed.

Lemma percentages_shown_bounds (p : float) :
  p ∈ percentages_shown →
  PrimFloat.leb 0 p = true ∧ PrimFloat.leb p 100 = true.
Proof.
  rewrite percentages_shown_values. intros Hp.
  repeat (apply elem_of_cons in Hp as [->|Hp]; [by split|]).
  by apply elem_of_nil in Hp.
Qed.

Lemma stepProgress_shown (t : Task) :
  table_task t → stepProgress (i t) (length (steps t)) ∈ percentages_shown.
Proof.
  intros [Hsteps Hi]. rewrite Hsteps in *.
  pose proof (getWorkflowSteps_cases (task_workflow t)) as Hcases.
  revert Hi Hcases. generalize (getWorkflowSteps (task_workflow t)) (i t).
  intros l n Hn Hcases.
  repeat (apply elem_of_cons in Hcases as [->|Hcases];
          [destruct n as [|[|[|n]]]; simpl in Hn; try lia;
           rewrite percentages_shown_values;
           repeat first [ by left | right ]|]).
  by apply elem_of_nil in Hcases.
Qed.

(** A segment that passes only such values to [setProgress] keeps the
    progress cell among them. *)
Lemma progress_stays_shown (st : State) (tr : list Effect) :
  progress st ∈ percentages_shown →
  Forall (λ v, v ∈ percentages_shown) (progress_emitted tr) →
  progress (foldl apply st tr) ∈ percentages_shown.
Proof.
  intros Hst Htr. rewrite progress_foldl.
  destruct (last (progress_emitted tr)) as [v|] eqn:Hlast; [|done].
  simpl. apply last_Some in Hlast as [l Hl]. rewrite Hl in Htr.
  by apply Forall_app in Htr as [_ [? _]%Forall_cons].
Qed.

Lemma shown_zero : 0%float ∈ percentages_shown.
Proof. by left. Qed.

(** What the invariant of the progress cell asks of a system. *)
Lemma progress_plain (sys : System) (effects : list Effect) :
  progress (ui sys) ∈ percentages_shown ∧ Forall table_task (timers sys) →
  Forall (λ v, v ∈ percentages_shown) (progress_emitted effects) →
  let sys' := perform sys (timers sys) (effects, None) in
  progress (ui sys') ∈ percentages_shown ∧ Forall table_task (timers sys').
Proof.
  intros [Hp Ht] Heffects. unfold perform. cbn [ui timers fst snd].
  split; [by apply progress_stays_shown|]. simpl. by rewrite app_nil_r.
Qed.

Lemma progress_start (sys : System) :
  progress (ui sys) ∈ percentages_shown ∧ Forall table_task (timers sys) →
  let sys' := perform sys (timers sys) (handleStart (activeWorkflow sys)) in
  progress (ui sys') ∈ percentages_shown ∧ Forall table_task (timers sys').
Proof.
  intros [Hp Ht]. unfold perform. cbn [ui timers]. split.
  - apply progress_stays_shown; [done|].
    rewrite handleStart_effects, progress_emitted_app.
    rewrite progress_emitted_loop_from. by repeat constructor.
  - rewrite handleStart_task, loop_from_task. apply Forall_app.
    split; [done|]. case_decide; [|constructor]. by repeat constructor.
Qed.

Lemma progress_timer (sys : System) (t : Task) (rest : list Task) :
  progress (ui sys) ∈ percentages_shown →
  Forall table_task (t :: rest) →
  let sys' := perform sys rest (resume t) in
  progress (ui sys') ∈ percentages_shown ∧ Forall table_task (timers sys').
Proof.
  intros Hp [Hhd Hrest]%Forall_cons. unfold perform. cbn [ui timers].
  destruct t as [w steps i]. split.
  - apply progress_stays_shown; [done|].
    rewrite progress_emitted_resume. apply Forall_singleton.
    apply (stepProgress_shown _ Hhd).
  - destruct Hhd as [Hsteps Hi]. simpl in Hsteps, Hi.
    rewrite resume_task, loop_from_task by done.
    apply Forall_app. split; [done|].
    case_decide; [|constructor]. repeat constructor; [done|]. simpl. lia.
Qed.

Lemma progress_step (sys : System) (ev : Event) :
  progress (ui sys) ∈ percentages_shown ∧ Forall table_task (timers sys) →
  progress (ui (step sys ev)) ∈ percentages_shown
  ∧ Forall table_task (timers (step sys ev)).
Proof.
  intros Hinv. destruct ev as [| | | |w|]; cbn [step].
  - destruct (isRunning (ui sys)); [done|]. by apply progress_start.
  - destruct (isRunning (ui sys)); [|done].
    apply progress_plain; [done|]. constructor.
  - destruct (isRunning (ui sys)); [|done].
    apply progress_plain; [done|]. by repeat constructor.
  - apply progress_plain; [done|]. by repeat constructor.
  - exact Hinv.
  - destruct (timers sys) as [|t rest] eqn:Htimers; [by rewrite Htimers|].
    destruct Hinv as [Hp Ht]. by apply progress_timer.
Qed.

(** X13. The progress bar never leaves its scale.  After any sequence of
    clicks on Start, Pause, Stop and Reset, choices of a workflow (one of
    the table or not) and timers, with runs overlapping or not, the
    progress cell holds 0 or one of the percentages of a table entry: 50,
    100, or the doubles next to 100/3 and 200/3.  So it is at least 0 and at
    most 100. *)
Theorem progress_within_scale (evs : list Event) :
  let p := progress (ui (run boot evs)) in
  p ∈ [ 0%float; 50%float; 100%float;
        0x1.0aaaaaaaaaaaap+5%float; 0x1.0aaaaaaaaaaaap+6%float ]
  ∧ PrimFloat.leb 0 p = true
  ∧ PrimFloat.leb p 100 = true.
Proof.
  intros p.
  assert (progress (ui (run boot evs)) ∈ percentages_shown
          ∧ Forall table_task (timers (run boot evs))) as [Hp _].
  { induction evs as [|ev evs IH] using rev_ind; [by split; [left|]|].
    rewrite run_snoc_click. by apply progress_step. }
  fold p in Hp. split; [|by apply percentages_shown_bounds].
  rewrite percentages_shown_values in Hp.
  repeat (apply elem_of_cons in Hp as [->|Hp];
          [repeat first [ by left | right ]|]).
  by apply elem_of_nil in Hp.
Qed.

(** The flag and the queue after one event. *)
Lemma flag_step (sys : System) (ev : Event) :
  Forall wf_task (timers sys)
  ∧ (isRunning (ui sys) = true → timers sys ≠ []) →
  Forall wf_task (timers (step sys ev))
  ∧ (isRunning (ui (step sys ev)) = true → timers (step sys ev) ≠ []).
Proof.
  intros [Hwf Hflag]. destruct ev as [| | | |w|]; cbn [step].
  - (* Start *)
    destruct (isRunning (ui sys)) eqn:Hrun;
      [split; [done|intros _; by apply Hflag]|].
    unfold perform. cbn [ui timers].
    rewrite isRunning_foldl, handleStart_effects, handleStart_task.
    rewrite flag_writes_app, flag_writes_loop_from, loop_from_task.
    case_decide as Hsteps; simpl.
    + split; [|by intros _ [_ ?]%app_eq_nil].
      apply Forall_app. split; [done|]. by repeat constructor.
    + by rewrite app_nil_r.
  - destruct (isRunning (ui sys)) eqn:Hrun; [|by rewrite Hrun].
    unfold perform. simpl. by rewrite app_nil_r.
  - destruct (isRunning (ui sys)) eqn:Hrun; [|by rewrite Hrun].
    unfold perform. simpl. by rewrite app_nil_r.
  - unfold perform. simpl. by rewrite app_nil_r.
  - by split.
  - (* a timer *)
    destruct (timers sys) as [|[w steps i] rest] eqn:Ht; [by rewrite Ht|].
    apply Forall_cons in Hwf as [Hi Hrest]. unfold wf_task in Hi.
    simpl in Hi. pose proof Hi as [stepi Hs]%lookup_lt_is_Some.
    unfold perform. cbn [ui timers].
    rewrite isRunning_foldl, (resume_effects _ _ _ _ Hs), resume_task by done.
    rewrite !flag_writes_app, flag_writes_stepCompleted.
    rewrite flag_writes_loop_from, loop_from_task.
    case_decide as Hnext; simpl.
    + split; [|by intros _ [_ ?]%app_eq_nil].
      apply Forall_app. split; [done|]. repeat constructor.
      unfold wf_task. simpl. lia.
    + by rewrite app_nil_r.
Qed.

(** X14. The running flag is never up with nothing running.  After any
    sequence of events, Pause and Stop included, a raised flag means that
    at least one [handleStart] call is waiting for its timer.  (The
    converse fails: after Stop the flag is down while the call goes on.) *)
Theorem flag_up_means_run_in_flight (evs : list Event) :
  isRunning (ui (run boot evs)) = true →
  1 ≤ runs_in_flight (run boot evs).
Proof.
  assert (Forall wf_task (timers (run boot evs))
          ∧ (isRunning (ui (run boot evs)) = true
             → timers (run boot evs) ≠ [])) as [_ Hflag].
  { induction evs as [|ev evs IH] using rev_ind; [done|].
    rewrite run_snoc_click. by apply flag_step. }
  intros Hup. unfold runs_in_flight.
  destruct (timers (run boot evs)); [by destruct Hflag|simpl; lia].
Qed.

Lemma flag_up_means_run_in_flight_witness :
  isRunning
    (ui (run boot [ ClickStart; TimerFires; ClickStop; ClickStart;
                    TimerFires ])) = true
  ∧ 1 ≤ runs_in_flight
          (run boot [ ClickStart; TimerFires; ClickStop; ClickStart;
                      TimerFires ]).
Proof.
  split; [reflexivity|].
  exact (flag_up_means_run_in_flight
           [ ClickStart; TimerFires; ClickStop; ClickStart; TimerFires ]
           eq_refl).
Defined.

(** What the calls of an uninterrupted run do to the state cells, mode by
    mode. *)
Lemma uninterrupted_cells (st : State) :
  Forall (λ mode,
      let steps := getWorkflowSteps mode in
      let st' := foldl apply st (uninterrupted mode (length steps)) in
      videosCreated st' = incremented (stages Video steps) (videosCreated st)
      ∧ videosUploaded st'
        = incremented (stages Upload steps) (videosUploaded st)
      ∧ progress st' = 100%float)
    workflowModes.*1.
Proof. repeat constructor. Qed.

(** X15. A run that is left alone counts its stages.  From an idle
    dashboard, choose one of the six modes, click Start and let the timers
    fire, one per step.  Then Videos Created has grown by one for each
    Video stage of the mode and Videos Uploaded by one for each Upload
    stage (each by one addition of 1 to the number the cell held), a Script
    stage changes neither, and the progress is 100. *)
Theorem complete_run_counts (sys : System) (mode : string) :
  idle sys →
  mode ∈ workflowModes.*1 →
  let steps := getWorkflowSteps mode in
  let sys' := run sys (SelectWorkflow mode :: ClickStart
                         :: replicate (length steps) TimerFires) in
  videosCreated (ui sys')
  = incremented (stages Video steps) (videosCreated (ui sys))
  ∧ videosUploaded (ui sys')
    = incremented (stages Upload steps) (videosUploaded (ui sys))
  ∧ progress (ui sys') = 100%float
  ∧ stages Video steps ≤ 1
  ∧ stages Upload steps ≤ 1.
Proof.
  intros Hidle Hmode steps sys'. subst steps sys'.
  assert (idle (step sys (SelectWorkflow mode))) as Hidle' by done.
  pose proof (run_uninterrupted (step sys (SelectWorkflow mode))
                (length (getWorkflowSteps mode)) Hidle' (le_n _))
    as (_ & Hui & _ & _).
  cbv zeta in Hui.
  change (activeWorkflow (step sys (SelectWorkflow mode))) with mode in Hui.
  change (ui (step sys (SelectWorkflow mode))) with (ui sys) in Hui.
  change (run sys (SelectWorkflow mode :: ?evs))
    with (run (step sys (SelectWorkflow mode)) evs).
  rewrite Hui.
  pose proof (uninterrupted_cells (ui sys)) as Hcells.
  rewrite Forall_forall in Hcells.
  destruct (Hcells mode Hmode) as (-> & -> & ->).
  split_and!; try done;
    repeat (apply elem_of_cons in Hmode as [->|Hmode]; [vm_compute; lia|]);
    by apply elem_of_nil in Hmode.
Qed.

Lemma complete_run_counts_witness :
  idle boot
  ∧ "video_and_upload" ∈ workflowModes.*1
  ∧ videosCreated
      (ui (run boot [ SelectWorkflow "video_and_upload"; ClickStart;
                      TimerFires; TimerFires ])) = 1%float
  ∧ videosUploaded
      (ui (run boot [ SelectWorkflow "video_and_upload"; ClickStart;
                      TimerFires; TimerFires ])) = 1%float.
Proof.
  assert (idle boot) as Hidle by done.
  assert ("video_and_upload" ∈ workflowModes.*1) as Hmode
    by (by repeat first [ left | right ]).
  split; [exact Hidle|]. split; [exact Hmode|].
  destruct (complete_run_counts boot "video_and_upload" Hidle Hmode)
    as (Hcreated & Huploaded & _).
  split; [exact Hcreated|exact Huploaded].
Defined.

End AutomationDashboardCellsSpec.

(** ** Index and LogViewer: a line written and read back; levels *)

Module LogViewerSpec.
Import Index LogViewer.

Lemma stampRun_app (digits rest : string) :
  allStamp digits = true →
  stampRun (digits +:+ rest)
  = (digits +:+ (stampRun rest).1, (stampRun rest).2).
Proof.
  induction digits as [|c digits IH]; simpl.
  - intros _. change ("" +:+ rest) with rest.
    change ("" +:+ (stampRun rest).1) with (stampRun rest).1.
    by destruct (stampRun rest).
  - intros [Hc Hdigits]%andb_true_iff.
    rewrite ?JSSpec.app_cons, Hc, (IH Hdigits). done.
Qed.

(** X16. A line of the log is read back as it was written, when the clock
    is written with digits and colons only.  For such a time of day (not
    empty) and any message, the viewer finds the time between the brackets
    of the line [addLog] built, and shows as message what [addLog] was given
    without the white space at its start. *)
Theorem line_read_back (time text : string) :
  time ≠ "" →
  allStamp time = true →
  timestamp (line time text) = time
  ∧ message (line time text) = JS.trimStart text.
Proof.
  intros Hne Hstamp.
  assert (exec (line time text) = Some ("", time, " " +:+ text)) as Hexec.
  { unfold line. change ("[" +:+ ?s) with (String "[" s).
    destruct time as [|d digits]; [done|].
    cbn [exec matchHere]. rewrite Ascii.eqb_refl.
    change ("] " +:+ text) with (String "]" (" " +:+ text)).
    rewrite stampRun_app by done. simpl.
    by rewrite JSSpec.app_nil_r. }
  unfold timestamp, message. by rewrite Hexec.
Qed.

Lemma line_read_back_witness :
  "16:30:05" ≠ ""
  ∧ timestamp (line "16:30:05" "  Starting full_auto workflow") = "16:30:05"
  ∧ message (line "16:30:05" "  Starting full_auto workflow")
    = "Starting full_auto workflow".
Proof.
  assert ("16:30:05" ≠ "") as Hne by discriminate.
  split; [exact Hne|].
  exact (line_read_back "16:30:05" "  Starting full_auto workflow" Hne
           eq_refl).
Defined.

Lemma exec_without_bracket (s : string) :
  JSStrings.has "[" s = false → exec s = None.
Proof.
  induction s as [|c s IH]; [done|]. simpl.
  intros [Hc Hs]%orb_false_elim. by rewrite Hc, IH.
Qed.

Lemma has_app (c : ascii) (a b : string) :
  JSStrings.has c (a +:+ b) = JSStrings.has c a || JSStrings.has c b.
Proof.
  induction a as [|x a IH]; [done|].
  rewrite JSSpec.app_cons. simpl. by rewrite IH, orb_assoc.
Qed.

(** The run of class characters stops inside [time] when [time] has a
    character outside the class; what follows starts with that
    character. *)
Lemma stampRun_stops (time rest : string) :
  allStamp time = false →
  ∃ c tail, (stampRun (time +:+ rest)).2 = String c tail
            ∧ JSStrings.has c time = true.
Proof.
  induction time as [|x time IH]; [done|]. rewrite JSSpec.app_cons. simpl.
  destruct (isStampChar x) eqn:Hx; simpl.
  - intros (c & tail & Hrest & Hin)%IH. destruct (stampRun _).
    exists c, tail. simpl in *. by rewrite Hin, orb_true_r.
  - intros _. exists x, (time +:+ rest). by rewrite Ascii.eqb_refl.
Qed.

(** X17. A time of day written with a letter or a space is not found.
    When the clock has a character that is neither a digit nor a colon (as
    in 4:30:00 PM), and neither it nor the message has a bracket, the viewer
    shows no time for the line and shows the whole line, brackets and time
    included, as the message. *)
Theorem clock_with_letters_not_found (time text : string) :
  allStamp time = false →
  JSStrings.has "[" time = false →
  JSStrings.has "]" time = false →
  JSStrings.has "[" text = false →
  timestamp (line time text) = ""
  ∧ message (line time text) = line time text.
Proof.
  intros Hstamp Hopen Hclose Htext.
  assert (exec (line time text) = None) as Hexec.
  { unfold line. change ("[" +:+ ?s) with (String "[" s).
    cbn [exec]. rewrite exec_without_bracket
      by (rewrite has_app, Hopen; simpl; exact Htext).
    assert (matchHere (String "[" (time +:+ "] " +:+ text)) = None) as ->;
      [|done].
    cbn [matchHere]. rewrite Ascii.eqb_refl.
    destruct (stampRun_stops time ("] " +:+ text) Hstamp)
      as (c & tail & Hrest & Hin).
    destruct (stampRun _) as [digits rest]. simpl in Hrest. subst rest.
    destruct digits; [done|].
    destruct (Ascii.eqb c "]") eqn:Hc; [|done].
    apply Ascii.eqb_eq in Hc as ->. congruence. }
  unfold timestamp, message. by rewrite Hexec.
Qed.

Lemma clock_with_letters_not_found_witness :
  timestamp (line "4:30:05 PM" "Starting full_auto workflow") = ""
  ∧ message (line "4:30:05 PM" "Starting full_auto workflow")
    = "[4:30:05 PM] Starting full_auto workflow".
Proof.
  exact (clock_with_letters_not_found "4:30:05 PM"
           "Starting full_auto workflow" eq_refl eq_refl eq_refl eq_refl).
Defined.

(** The tests of the three filters, by what they look for. *)
Lemma levelTest_error (log : string) :
  levelTest "error" log
  = JS.includes (JSStrings.toLowerCase log) "error"
    || JS.includes (JSStrings.toLowerCase log) "failed".
Proof. reflexivity. Qed.

Lemma levelTest_warning (log : string) :
  levelTest "warning" log
  = JS.includes (JSStrings.toLowerCase log) "warning"
    || JS.includes (JSStrings.toLowerCase log) "warn".
Proof. reflexivity. Qed.

Lemma levelTest_info (log : string) :
  levelTest "info" log
  = JS.includes (JSStrings.toLowerCase log) "info"
    || JS.includes (JSStrings.toLowerCase log) "completed".
Proof. reflexivity. Qed.

(** X18. The Errors filter and the ERROR badge agree, and so do the
    Warnings filter and the WARNING badge once the errors are set aside: a
    line passes the error test of the filter exactly when its level is
    error, and its level is warning exactly when it passes the warning test
    and not the error test. *)
Theorem filter_agrees_with_badge (log : string) :
  (levelTest "error" log = true ↔ getLogLevel log = "error")
  ∧ (levelTest "warning" log = true ∧ levelTest "error" log = false
     ↔ getLogLevel log = "warning").
Proof.
  rewrite levelTest_error, levelTest_warning. unfold getLogLevel. cbv zeta.
  set (l := JSStrings.toLowerCase log).
  destruct (JS.includes l "error" || JS.includes l "failed");
    destruct (JS.includes l "warning" || JS.includes l "warn");
    destruct (JS.includes l "completed" || JS.includes l "success");
    destruct (JS.includes l "started" || JS.includes l "starting");
    (split; split); try done; intros []; done.
Qed.

(** X19. The Info filter and the INFO badge do not go together.  A line
    with the word completed passes the Info filter, and its badge is never
    INFO: it is ERROR, WARNING or SUCCESS. *)
Theorem completed_is_info_to_the_filter_only (log : string) :
  JS.includes (JSStrings.toLowerCase log) "completed" = true →
  levelTest "info" log = true
  ∧ getLogLevel log ∈ [ "error"; "warning"; "success" ].
Proof.
  intros Hcompleted. rewrite levelTest_info. unfold getLogLevel. cbv zeta.
  set (l := JSStrings.toLowerCase log) in *.
  rewrite Hcompleted, orb_true_r. split; [done|].
  destruct (JS.includes l "error" || JS.includes l "failed");
    destruct (JS.includes l "warning" || JS.includes l "warn");
    simpl; repeat first [ by left | right ].
Qed.

Lemma completed_is_info_to_the_filter_only_witness :
  levelTest "info" "[16:30:05] Video upload completed" = true
  ∧ getLogLevel "[16:30:05] Video upload completed" = "success"
  ∧ levelTest "info" "[16:30:05] Starting full_auto workflow" = false
  ∧ getLogLevel "[16:30:05] Starting full_auto workflow" = "info".
Proof.
  destruct (completed_is_info_to_the_filter_only
              "[16:30:05] Video upload completed" eq_refl) as [Hpass _].
  split; [exact Hpass|]. by split_and!.
Defined.

Lemma getLogLevel_cases (log : string) :
  getLogLevel log ∈ [ "error"; "warning"; "success"; "info"; "debug" ].
Proof.
  unfold getLogLevel. cbv zeta.
  repeat (destruct (_ || _); [repeat first [ by left | right ]|]).
  repeat first [ by left | right ].
Qed.

(** X20. The five levels divide the log.  Every line has exactly one
    level, so the counts of the levels add up to the number of lines, and
    the three counts the statistics line shows (errors, warnings, successes)
    never add up to more than its total. *)
Theorem levels_divide_the_log (logs : list string) :
  count "error" logs + count "warning" logs + count "success" logs
    + count "info" logs + count "debug" logs = length logs
  ∧ count "error" logs + count "warning" logs + count "success" logs
    ≤ length logs.
Proof.
  assert (count "error" logs + count "warning" logs + count "success" logs
            + count "info" logs + count "debug" logs = length logs) as Hsum.
  { unfold count. induction logs as [|log logs IH]; [done|].
    rewrite !filter_cons. pose proof (getLogLevel_cases log) as Hlevel.
    repeat (apply elem_of_cons in Hlevel as [Hlevel|Hlevel];
            [rewrite Hlevel; repeat case_decide; try congruence;
             simpl in *; lia|]).
    by apply elem_of_nil in Hlevel. }
  split; [exact Hsum|lia].
Qed.

Lemma lowerChar_idemp (c : ascii) :
  JSStrings.lowerChar (JSStrings.lowerChar c) = JSStrings.lowerChar c.
Proof. by destruct c as [[] [] [] [] [] [] [] []]. Qed.

Lemma toLowerCase_idemp (s : string) :
  JSStrings.toLowerCase (JSStrings.toLowerCase s) = JSStrings.toLowerCase s.
Proof.
  induction s as [|c s IH]; [done|]. simpl. by rewrite lowerChar_idemp, IH.
Qed.

Lemma toLowerCase_truthy (s : string) :
  JS.truthy (JSStrings.toLowerCase s) = JS.truthy s.
Proof. by destruct s. Qed.

(** X21. The search ignores the case of what is typed: two search terms
    that differ only in the case of their letters show the same lines, for
    every log and every level.  What is shown is always a selection of the
    log, in the order of the log. *)
Theorem search_ignores_case (logs : list string) (term term' level : string) :
  JSStrings.toLowerCase term = JSStrings.toLowerCase term' →
  filterLogs logs term level = filterLogs logs term' level
  ∧ filterLogs logs term level `sublist_of` logs.
Proof.
  intros Hcase. split.
  - unfold filterLogs.
    rewrite <-(toLowerCase_truthy term), <-(toLowerCase_truthy term'), Hcase.
    done.
  - unfold filterLogs. cbv zeta.
    destruct (JS.truthy term), (negb _);
      repeat (etrans; [apply sublist_filter|]); done.
Qed.

Lemma search_ignores_case_witness :
  filterLogs [ "[16:30:05] Upload FAILED"; "[16:30:06] Workflow stopped" ]
             "Failed" "all"
  = filterLogs [ "[16:30:05] Upload FAILED"; "[16:30:06] Workflow stopped" ]
               "FAILED" "all".
Proof.
  exact (proj1 (search_ignores_case
                  [ "[16:30:05] Upload FAILED"; "[16:30:06] Workflow stopped" ]
                  "Failed" "FAILED" "all" eq_refl)).
Defined.

End LogViewerSpec.

(** ** VideoCreator: the ticks of the progress panel *)

Module VideoCreatorSpec.
Import React VideoCreator.

Lemma creation_run_snoc (sys : System) (evs : list Event) (ev : Event) :
  run sys (evs ++ [ev]) = step (run sys evs) ev.
Proof. apply foldl_snoc. Qed.

Lemma creation_timer_count_snoc (evs : list Event) (ev : Event) :
  timer_count (evs ++ [ev]) = timer_count evs + (if is_timer ev then 1 else 0).
Proof.
  unfold timer_count. rewrite filter_app, length_app. f_equal.
  rewrite filter_cons. by destruct (is_timer ev).
Qed.

(** An event other than a click on Create and a timer leaves the
    creation alone. *)
Lemma creation_step_edits (sys : System) (ev : Event) :
  edits ev = true →
  isCreating (ui (step sys ev)) = isCreating (ui sys)
  ∧ timers (step sys ev) = timers sys
  ∧ progress (ui (step sys ev)) = progress (ui sys)
  ∧ currentStep (ui (step sys ev)) = currentStep (ui sys)
  ∧ createdVideo (ui (step sys ev)) = createdVideo (ui sys).
Proof.
  intros Hev.
  destruct ev as [[file|]|value|value|value|value|parsed|parsed|now| | |now];
    try done; simpl; rewrite ?app_nil_r; try done;
    by destruct (createdVideo (ui sys)) eqn:Hvideo; simpl;
      rewrite ?app_nil_r.
Qed.

(** A creation between its first step and its last timer: Create is
    disabled, and each timer moves the loop one step on. *)
Lemma creation_in_progress (sys : System) (evs : list Event) :
  isCreating (ui sys) = true →
  timers sys = [ mkTask 0 ] →
  progress (ui sys) = 0%float →
  creationSteps !! 0 = Some (currentStep (ui sys)) →
  timer_count evs < length creationSteps →
  let sys' := run sys evs in
  isCreating (ui sys') = true
  ∧ timers sys' = [ mkTask (timer_count evs) ]
  ∧ progress (ui sys') = progress_after (timer_count evs)
  ∧ creationSteps !! timer_count evs = Some (currentStep (ui sys'))
  ∧ createdVideo (ui sys') = createdVideo (ui sys).
Proof.
  intros Hup Htimers Hzero Hfirst.
  induction evs as [|ev evs IH] using rev_ind; intros Hcount; [done|].
  rewrite creation_timer_count_snoc in *. cbv zeta in *.
  rewrite creation_run_snoc.
  destruct IH as (IHup & IHt & IHp & IHs & IHv); [lia|].
  destruct (edits ev) eqn:Hev.
  { destruct (creation_step_edits (run sys evs) ev Hev)
      as (-> & -> & -> & -> & ->).
    destruct ev; try done; simpl; by rewrite Nat.add_0_r. }
  destruct ev as [| | | | | | |now| | |now]; try done.
  - (* Create is disabled *)
    simpl. rewrite IHup, orb_true_r, Nat.add_0_r. done.
  - (* a timer *)
    cbn [step is_timer] in *. rewrite IHt.
    unfold resume, loop_from. cbn [i].
    destruct (creationSteps !! (timer_count evs + 1)) as [next|] eqn:Hnext;
      [|apply lookup_ge_None_1 in Hnext; lia].
    unfold perform. cbn [ui timers fst snd foldl app apply option_list
      isCreating progress currentStep createdVideo].
    rewrite IHup, IHv. split_and!; try done.
    by replace (timer_count evs + 1) with (S (timer_count evs)) by lia.
Qed.

(** The first segment of a creation. *)
Lemma creation_started (sys : System) (now : N) :
  is_Some (scriptFile (ui sys)) →
  isCreating (ui sys) = false →
  timers sys = [] →
  let sys' := step sys (ClickCreate now) in
  isCreating (ui sys') = true
  ∧ timers sys' = [ mkTask 0 ]
  ∧ progress (ui sys') = 0%float
  ∧ creationSteps !! 0 = Some (currentStep (ui sys'))
  ∧ createdVideo (ui sys') = createdVideo (ui sys).
Proof.
  intros [file Hfile] Hidle Htimers. cbn [step].
  rewrite Hfile, Hidle, Htimers. unfold handleCreateVideo. rewrite Hfile.
  by split_and!.
Qed.

(** X22. The ticks of the progress panel follow the steps done.  From a
    state with a script file and no creation going on, click Create and let
    anything happen, with fewer than seven timers among it: changes of the
    settings, another script file, clicks on Create, Preview and Download.
    After [k] timers the creation is still going on, its current step is
    step [k] of the list, the first [k] steps are ticked and no other, and
    the percentage shown is 0, 14, 29, 43, 57, 71 or 86.  The video of an
    earlier creation, if there is one, is still the one displayed. *)
Theorem ticks_follow_the_steps (sys : System) (now : N) (evs : list Event) :
  is_Some (scriptFile (ui sys)) →
  isCreating (ui sys) = false →
  timers sys = [] →
  timer_count evs < 7 →
  let k := timer_count evs in
  let sys' := run sys (ClickCreate now :: evs) in
  isCreating (ui sys') = true
  ∧ creationSteps !! k = Some (currentStep (ui sys'))
  ∧ ticks (ui sys') = replicate k true ++ replicate (7 - k) false
  ∧ [ 0; 14; 29; 43; 57; 71; 86 ]%float !! k = Some (percent (ui sys'))
  ∧ createdVideo (ui sys') = createdVideo (ui sys).
Proof.
  intros Hfile Hidle Htimers Hcount k sys'.
  destruct (creation_started sys now Hfile Hidle Htimers)
    as (Hup & Ht & Hp & Hs & Hv).
  destruct (creation_in_progress (step sys (ClickCreate now)) evs
              Hup Ht Hp Hs Hcount) as (Hup' & _ & Hp' & Hs' & Hv').
  change (run (step sys (ClickCreate now)) evs) with sys' in *.
  fold k in Hp', Hs', Hcount.
  split_and!; [done|done| | |congruence].
  - unfold ticks, isCompleted. rewrite Hp'.
    do 7 (destruct k as [|k]; [reflexivity|]). lia.
  - unfold percent. rewrite Hp'.
    do 7 (destruct k as [|k]; [reflexivity|]). lia.
Qed.

Lemma ticks_follow_the_steps_witness :
  let ready := run boot [ ChooseScript (Some (UploadManager.mkFile "s.txt")) ] in
  let evs :=
    [ TimerFires 10; ChooseStyle "realistic"; TimerFires 20; ClickCreate 25;
      TimerFires 30 ] in
  timer_count evs < 7
  ∧ ticks (ui (run ready (ClickCreate 0 :: evs)))
    = [ true; true; true; false; false; false; false ]
  ∧ currentStep (ui (run ready (ClickCreate 0 :: evs)))
    = "Applying anime style".
Proof.
  intros ready evs.
  assert (timer_count evs < 7) as Hcount by (vm_compute; lia).
  split; [exact Hcount|].
  destruct (ticks_follow_the_steps ready 0 evs (mk_is_Some _ _ eq_refl)
              eq_refl eq_refl Hcount) as (_ & _ & Hticks & _).
  split; [exact Hticks|reflexivity].
Defined.

(** X23. The last timer of a creation ends it.  From a state with a script
    file and no creation going on, click Create and let anything happen with
    six timers among it; when the seventh timer fires, the video gets the
    identifier made of [video_] and the time of that moment, the creating
    flag goes down, the current step reads Completed, and all seven steps
    are ticked at 100 percent. *)
Theorem seventh_timer_ends_creation (sys : System) (now last : N)
    (evs : list Event) :
  is_Some (scriptFile (ui sys)) →
  isCreating (ui sys) = false →
  timers sys = [] →
  timer_count evs = 6 →
  let sys' := run sys (ClickCreate now :: evs ++ [ TimerFires last ]) in
  createdVideo (ui sys') = Some ("video_" +:+ pretty last)
  ∧ isCreating (ui sys') = false
  ∧ currentStep (ui sys') = "Completed"
  ∧ ticks (ui sys') = replicate 7 true
  ∧ percent (ui sys') = 100%float
  ∧ timers sys' = [].
Proof.
  intros Hfile Hidle Htimers Hcount sys'. subst sys'.
  rewrite app_comm_cons, creation_run_snoc.
  change (run sys (ClickCreate now :: evs))
    with (run (step sys (ClickCreate now)) evs).
  destruct (creation_started sys now Hfile Hidle Htimers)
    as (Hup & Ht & Hp & Hs & Hv).
  destruct (creation_in_progress (step sys (ClickCreate now)) evs
              Hup Ht Hp Hs) as (_ & Ht' & _).
  { rewrite Hcount. simpl. lia. }
  cbv zeta in Ht'. revert Ht'.
  generalize (run (step sys (ClickCreate now)) evs). intros sys' Ht'.
  cbn [step]. rewrite Ht', Hcount. by split_and!.
Qed.

Lemma seventh_timer_ends_creation_witness :
  let ready := run boot [ ChooseScript (Some (UploadManager.mkFile "s.txt")) ] in
  let evs :=
    [ TimerFires 10; TimerFires 20; TypeVoice "nova"; TimerFires 30;
      TimerFires 40; TimerFires 50; ClickCreate 55; TimerFires 60 ] in
  timer_count evs = 6
  ∧ createdVideo
      (ui (run ready (ClickCreate 0 :: evs ++ [ TimerFires 1705329000000 ])))
    = Some ("video_" +:+ pretty 1705329000000%N).
Proof.
  intros ready evs.
  assert (timer_count evs = 6) as Hcount by reflexivity.
  split; [exact Hcount|].
  destruct (seventh_timer_ends_creation ready 0 1705329000000 evs
              (mk_is_Some _ _ eq_refl) eq_refl eq_refl Hcount)
    as (Hvideo & _).
  exact Hvideo.
Defined.

End VideoCreatorSpec.
